(** * ComboBox: a shallow embedding of [src/ComboBox.tsx]

    The widget is a React function component.  Its interaction state lives
    in [useState] cells, the option registry in a [useRef] cell, and every
    handler is a closure over the values of the render that created it.
    The embedding keeps these three things apart:

    - [Machine] holds what handlers write: the state cells, the registry
      ref, the trace of [onSelect] invocations and the event flag;
    - [Env] holds what a handler closure reads: the render's [selected],
      [showPopover] and the [onSelect] prop;
    - handlers are computations in a small state-and-exception monad.

    [console.log] calls are left out: they have no effect on any of the
    above. *)

From Stdlib Require Import List String ZArith Bool Lia Permutation.
Import ListNotations.
Local Open Scope string_scope.
Local Open Scope Z_scope.

(** ** JavaScript values and arrays *)

Module JS.

(** The values a [string | null] cell holds at run time: an out-of-range
    array read puts [undefined] there as well. *)
Inductive value : Type :=
| Null
| Undefined
| Str (s : string).

Definition value_eqb (a b : value) : bool :=
  match a, b with
  | Null, Null => true
  | Undefined, Undefined => true
  | Str s, Str t => String.eqb s t
  | _, _ => false
  end.

(** [!v]: [null], [undefined] and the empty string are falsy. *)
Definition not (v : value) : bool :=
  match v with
  | Null | Undefined => true
  | Str s => String.eqb s ""
  end.

(** [v || d] on values. *)
Definition or (v d : value) : value := if not v then d else v.

(** [arr[i]]: the element when [0 <= i < arr.length], else [undefined]. *)
Definition get (arr : list string) (i : Z) : value :=
  if i <? 0 then Undefined
  else match nth_error arr (Z.to_nat i) with
       | Some s => Str s
       | None => Undefined
       end.

Definition length (arr : list string) : Z := Z.of_nat (List.length arr).

(** [arr.indexOf(x)]: first index holding a value strictly equal to [x],
    or [-1].  The array holds strings only, so nothing but a string can be
    found. *)
Fixpoint indexOf_from (arr : list string) (x : value) (k : Z) : Z :=
  match arr with
  | [] => -1
  | y :: rest => if value_eqb (Str y) x then k else indexOf_from rest x (k + 1)
  end.

Definition indexOf (arr : list string) (x : value) : Z := indexOf_from arr x 0.

(** [arr.push(x)] *)
Definition push (arr : list string) (x : string) : list string := arr ++ [x].

End JS.

(** ** Exceptions and the handler monad *)

Inductive exn : Type :=
| TypeError                 (* property access on [null] *)
| Error (message : string). (* [throw new Error(message)] *)

Inductive result (A : Type) : Type :=
| Ok (a : A)
| Throw (e : exn).
Arguments Ok {A} a.
Arguments Throw {A} e.

(** An [onSelect] function passed by the integrator, known by identity. *)
Inductive callback : Type := Callback (id : nat).

(** Work queued with [requestAnimationFrame]. *)
Inductive task : Type := BlurCheck.

(** What the handlers write. *)
Record Machine : Type := mkMachine {
  selected : JS.value;                     (* useState<string | null>(null) *)
  showPopover : bool;                      (* useState(false) *)
  expanded : bool;                         (* useState(false) *)
  options_current : option (list string);  (* useRef<string[] | null>([]) *)
  calls : list (callback * JS.value);      (* onSelect invocations, oldest first *)
  defaultPrevented : bool;                 (* flag of the event being handled *)
  frames : list task                       (* animation-frame queue *)
}.

Definition initial : Machine :=
  mkMachine JS.Null false false (Some []) [] false [].

(** What a handler closure reads: the values of the render that built it. *)
Record Env : Type := mkEnv {
  env_selected : JS.value;
  env_showPopover : bool;
  env_onSelect : option callback            (* onSelect?: ... *)
}.

Definition M (A : Type) : Type := Machine -> result A * Machine.

Definition ret {A} (a : A) : M A := fun m => (Ok a, m).

Definition bind {A B} (c : M A) (k : A -> M B) : M B :=
  fun m => match c m with
           | (Ok a, m') => k a m'
           | (Throw e, m') => (Throw e, m')
           end.

Definition throw {A} (e : exn) : M A := fun m => (Throw e, m).

Declare Scope handler_scope.
Delimit Scope handler_scope with handler.
Notation "x <- c ;; k" := (bind c (fun x => k))
  (at level 61, c at next level, right associativity) : handler_scope.
Notation "c ;; k" := (bind c (fun _ => k))
  (at level 61, right associativity) : handler_scope.
Local Open Scope handler_scope.

Definition setSelected (v : JS.value) : M unit := fun m =>
  (Ok tt, mkMachine v (showPopover m) (expanded m) (options_current m)
                    (calls m) (defaultPrevented m) (frames m)).

Definition setShowPopover (b : bool) : M unit := fun m =>
  (Ok tt, mkMachine (selected m) b (expanded m) (options_current m)
                    (calls m) (defaultPrevented m) (frames m)).

Definition setExpanded (b : bool) : M unit := fun m =>
  (Ok tt, mkMachine (selected m) (showPopover m) b (options_current m)
                    (calls m) (defaultPrevented m) (frames m)).

(** [options.current = o] *)
Definition set_options (o : option (list string)) : M unit := fun m =>
  (Ok tt, mkMachine (selected m) (showPopover m) (expanded m) o
                    (calls m) (defaultPrevented m) (frames m)).

(** [options.current] *)
Definition read_options : M (option (list string)) := fun m =>
  (Ok (options_current m), m).

(** A member access on a possibly-null array: the [!] of the source is
    erased by the compiler, so [null] raises at the access. *)
Definition member (o : option (list string)) : M (list string) :=
  match o with
  | Some arr => ret arr
  | None => throw TypeError
  end.

(** [f && f(v)] for an optional callback. *)
Definition invoke (f : option callback) (v : JS.value) : M unit :=
  match f with
  | Some cb => fun m =>
      (Ok tt, mkMachine (selected m) (showPopover m) (expanded m)
                        (options_current m) (calls m ++ [(cb, v)])
                        (defaultPrevented m) (frames m))
  | None => ret tt
  end.

(** [e.preventDefault()] *)
Definition preventDefault : M unit := fun m =>
  (Ok tt, mkMachine (selected m) (showPopover m) (expanded m)
                    (options_current m) (calls m) true (frames m)).

(** [requestAnimationFrame(t)] *)
Definition requestAnimationFrame (t : task) : M unit := fun m =>
  (Ok tt, mkMachine (selected m) (showPopover m) (expanded m)
                    (options_current m) (calls m) (defaultPrevented m)
                    (frames m ++ [t])).

(** ** The part of the DOM that blur handling looks at *)

Module DOM.

#[warnings="-register-all"]
Inductive node : Type := Node (id : nat) (children : list node).

Definition id (n : node) : nat := let (i, _) := n in i.
Definition children (n : node) : list node := let (_, cs) := n in cs.

(** Identities of a node and of everything below it. *)
Fixpoint ids (n : node) : list nat :=
  match n with
  | Node i cs => i :: flat_map ids cs
  end.

(** [a == b] on two possibly-null node references. *)
Definition eq (a b : option node) : bool :=
  match a, b with
  | None, None => true
  | Some x, Some y => Nat.eqb (id x) (id y)
  | _, _ => false
  end.

(** [n.contains(other)]: [other] is [n] or below it; [false] on [null]. *)
Definition contains (n : node) (other : option node) : bool :=
  match other with
  | None => false
  | Some o => existsb (Nat.eqb (id o)) (ids n)
  end.

(** [x] identifies a node strictly below [n]. *)
Inductive descendant : node -> nat -> Prop :=
| desc_child i cs c :
    In c cs -> descendant (Node i cs) (id c)
| desc_below i cs c x :
    In c cs -> descendant c x -> descendant (Node i cs) x.

(** Induction over a node and, through the list, its children. *)
Section Nodes.

Variable P : node -> Prop.
Hypothesis step : forall i cs, Forall P cs -> P (Node i cs).

Fixpoint node_ind_list (n : node) : P n :=
  match n with
  | Node i cs =>
      step i cs
        ((fix all (l : list node) : Forall P l :=
            match l with
            | [] => Forall_nil P
            | c :: rest => Forall_cons c (node_ind_list c) (all rest)
            end) cs)
  end.

End Nodes.

(** What the deferred blur check reads when the frame fires. *)
Record Page : Type := mkPage {
  activeElement : option node;     (* document.activeElement *)
  inputRef_current : option node;  (* inputRef.current *)
  listRef_current : option node    (* listRef.current *)
}.

End DOM.

(** ** The root controller, [ComboBox] *)

Module ComboBox.

Section Handlers.

Variable env : Env.

Definition getSelectedIndex : M Z :=
  if JS.not (env_selected env) then ret (-1)
  else
    o <- read_options ;;
    arr <- member o ;;
    ret (JS.indexOf arr (JS.or (env_selected env) (JS.Str ""))).

Definition onArrowDown : M unit :=
  opts <- read_options ;;
  i <- getSelectedIndex ;;
  arr <- member opts ;;
  if i + 1 =? JS.length arr
  then setSelected (JS.get arr 0)
  else setSelected (JS.get arr (i + 1)).

Definition onArrowUp : M unit :=
  opts <- read_options ;;
  i <- getSelectedIndex ;;
  if i =? -1
  then arr <- member opts ;;
       setSelected (JS.get arr (JS.length arr - 1))
  else arr <- member opts ;;
       setSelected (JS.get arr (i - 1)).

Definition onItemSelect : M unit :=
  setShowPopover false ;;
  invoke (env_onSelect env) (env_selected env) ;;
  setSelected JS.Null.

Definition onEscape : M unit :=
  setShowPopover false ;;
  setSelected JS.Null.

Definition makeHash (listId i : string) : string := listId ++ i.

Definition onKeyDown (key : string) : M unit :=
  if String.eqb key "ArrowUp" then preventDefault ;; onArrowUp
  else if String.eqb key "ArrowDown" then preventDefault ;; onArrowDown
  else if String.eqb key "Escape" then preventDefault ;; onEscape
  else if String.eqb key "Enter" then preventDefault ;; onItemSelect
  else ret tt.

Definition onInputChange : M unit :=
  setSelected JS.Null ;;
  if negb (env_showPopover env) then setShowPopover true else ret tt.

(** The function handed to [requestAnimationFrame] by [handleBlur]. *)
Definition blurCheck (page : DOM.Page) : M unit :=
  let focusedElement := DOM.activeElement page in
  let list := DOM.listRef_current page in
  if DOM.eq focusedElement (DOM.inputRef_current page)
     || DOM.eq focusedElement list
  then ret tt
  else if match list with
          | Some l => DOM.contains l focusedElement
          | None => false
          end
  then ret tt
  else setShowPopover false ;;
       setSelected JS.Null.

Definition handleBlur : M unit :=
  requestAnimationFrame BlurCheck.

Definition handleFocus : M unit :=
  setShowPopover true.

Definition handleSelect (value : string) : M unit :=
  invoke (env_onSelect env) (JS.Str value) ;;
  setShowPopover false ;;
  setSelected JS.Null.

End Handlers.

(** The browser firing an animation frame: the queue is emptied and each
    queued function runs, in order. *)
Definition run_task (page : DOM.Page) (t : task) : M unit :=
  match t with
  | BlurCheck => blurCheck page
  end.

Fixpoint run_tasks (page : DOM.Page) (ts : list task) : M unit :=
  match ts with
  | [] => ret tt
  | t :: rest => run_task page t ;; run_tasks page rest
  end.

Definition animationFrame (page : DOM.Page) : M unit := fun m =>
  run_tasks page (frames m)
    (mkMachine (selected m) (showPopover m) (expanded m) (options_current m)
               (calls m) (defaultPrevented m) []).

(** *** Closures kept across renders

    Every handler is wrapped in [useCallback]: the closure of an earlier
    render is kept until one of its dependencies changes (compared with
    [Object.is]).  [getSelectedIndex] depends on [options] (the ref object,
    which never changes) and [selected]; [onArrowDown], [onArrowUp],
    [onItemSelect] and [onKeyDown] depend on [selected] directly or through
    one another; [onInputChange] depends on [showPopover]; [onEscape],
    [handleBlur], [handleFocus] and [handleSelect] have no dependency. *)

Definition useCallback {D : Type} (same : D -> D -> bool) (dep : Env -> D)
    (prev : option Env) (now : Env) : Env :=
  match prev with
  | Some old => if same (dep old) (dep now) then old else now
  | None => now
  end.

Record Callbacks : Type := mkCallbacks {
  by_selected : Env;     (* deps reach [selected] *)
  by_showPopover : Env;  (* deps [showPopover] *)
  by_nothing : Env       (* deps [] *)
}.

Definition hooks (prev : option Callbacks) (now : Env) : Callbacks :=
  mkCallbacks
    (useCallback JS.value_eqb env_selected (option_map by_selected prev) now)
    (useCallback Bool.eqb env_showPopover (option_map by_showPopover prev) now)
    (useCallback (fun _ _ : unit => true) (fun _ => tt)
                 (option_map by_nothing prev) now).

(** The value given to [ComboBoxContext.Provider]. *)
Record ContextType : Type := mkContext {
  ctx_selected : JS.value;
  ctx_showPopover : bool;
  ctx_listId : string;
  ctx_expanded : bool;
  ctx_callbacks : Callbacks
}.

(** One render of the controller in state [m] with prop [onSelect]. *)
Definition render (onSelect : option callback) (listId : string)
    (prev : option Callbacks) (m : Machine) : ContextType :=
  mkContext (selected m) (showPopover m) listId (expanded m)
            (hooks prev (mkEnv (selected m) (showPopover m) onSelect)).

End ComboBox.

(** ** The elements that read the context *)

Definition context_missing : string :=
  "ComboBoxInput must be wrapped in a ComboBox component".

Module ComboBoxInput.

Record element : Type := mkElement {
  id : string;
  aria_controls : string;
  role : string;
  aria_autocomplete : string;
  aria_activedescendant : JS.value;
  value : JS.value
}.

Definition render (context : option ComboBox.ContextType) (value : JS.value)
  : result element :=
  match context with
  | None => Throw (Error context_missing)
  | Some ctx =>
      let selected := ComboBox.ctx_selected ctx in
      let listId := ComboBox.ctx_listId ctx in
      Ok (mkElement listId listId "textbox" "list"
            (if JS.not selected then JS.Undefined
             else match selected with
                  | JS.Str s => JS.Str (ComboBox.makeHash listId s)
                  | _ => JS.Undefined
                  end)
            value)
  end.

(** [handleChange]: the caller's [onChange] runs outside the widget, then
    the controller's [onInputChange]. *)
Definition handleChange (ctx : ComboBox.ContextType) : M unit :=
  ComboBox.onInputChange (ComboBox.by_showPopover (ComboBox.ctx_callbacks ctx)).

End ComboBoxInput.

Module ComboBoxList.

Record element : Type := mkElement {
  id : string;
  role : string;
  aria_hidden : bool;
  opacity : Z;
  pointerEvents : string
}.

Definition render (context : option ComboBox.ContextType) : result element :=
  match context with
  | None => Throw (Error context_missing)
  | Some ctx =>
      let showPopover := ComboBox.ctx_showPopover ctx in
      Ok (mkElement (ComboBox.ctx_listId ctx) "listbox" (negb showPopover)
            (if showPopover then 1 else 0)
            (if showPopover then "auto" else "none"))
  end.

(** The body of [useLayoutEffect] and the cleanup it returns.  The hook
    has no dependency list: both run at every commit of the list. *)
Definition layoutEffect : M unit := set_options (Some []).
Definition layoutCleanup : M unit := set_options (Some []).

End ComboBoxList.

Module ComboBoxOption.

Record element : Type := mkElement {
  id : string;
  role : string;
  aria_selected : string;
  background : string
}.

Definition render (context : option ComboBox.ContextType) (value : string)
  : result element :=
  match context with
  | None => Throw (Error context_missing)
  | Some ctx =>
      let isSelected := JS.value_eqb (ComboBox.ctx_selected ctx) (JS.Str value) in
      Ok (mkElement (ComboBox.makeHash (ComboBox.ctx_listId ctx) value) "option"
            (if isSelected then "true" else "false")
            (if isSelected then "blue" else "none"))
  end.

(** The body of [useEffect]; no dependency list, so it runs at every
    commit of the option. *)
Definition effect (value : string) : M unit :=
  o <- read_options ;;
  match o with
  | Some arr => set_options (Some (JS.push arr value))
  | None => ret tt
  end.

Definition onClick (ctx : ComboBox.ContextType) (value : string) : M unit :=
  ComboBox.handleSelect (ComboBox.by_nothing (ComboBox.ctx_callbacks ctx)) value.

End ComboBoxOption.

(** ** Commit of a render pass

    React runs the layout effects of a pass before its passive effects, so
    the list's reset comes first.  Passive effects then run bottom-up: the
    effects of the elements inside an element before its own, siblings in
    tree order.  An option renders [children || value], so an option can
    sit inside another one. *)

Module Commit.

Inductive list_phase : Type :=
| Mounts       (* first render of the list *)
| Updates      (* the list renders again *)
| Unmounts     (* the list leaves the tree *)
| Idle.        (* the list takes no part in this pass *)

(** An option element in the tree after a pass: its value, whether it
    rendered in the pass, and the option elements among its descendants
    that have no other option in between. *)
#[warnings="-register-all"]
Inductive row : Type :=
  Row (value : string) (renders : bool) (inside : list row).

Definition leaf (v : string) : row := Row v true [].

Definition leaves (values : list string) : list row := map leaf values.

Definition is_leaf (r : row) : bool :=
  match r with
  | Row _ _ [] => true
  | Row _ _ (_ :: _) => false
  end.

(** Induction over a row and, through the list, the rows inside it. *)
Section Rows.

Variable P : row -> Prop.
Hypothesis step : forall v b inside, Forall P inside -> P (Row v b inside).

Fixpoint row_ind_list (r : row) : P r :=
  match r with
  | Row v b inside =>
      step v b inside
        ((fix all (l : list row) : Forall P l :=
            match l with
            | [] => Forall_nil P
            | c :: rest => Forall_cons c (row_ind_list c) (all rest)
            end) inside)
  end.

End Rows.

Record Pass : Type := mkPass {
  phase : list_phase;
  options : list row   (* the options in the tree after the pass *)
}.

(** Rendered order: an option comes before the options inside it. *)
Fixpoint values (r : row) : list string :=
  match r with
  | Row v _ inside => v :: flat_map values inside
  end.

Definition mounted (p : Pass) : list string := flat_map values (options p).

(** The values whose effect runs in the pass, in the order the effects
    run: an option that did not render has no effect to run. *)
Fixpoint effects (r : row) : list string :=
  match r with
  | Row v b inside => flat_map effects inside ++ (if b then [v] else [])
  end.

Definition rendered (p : Pass) : list string := flat_map effects (options p).

Fixpoint all_render (r : row) : bool :=
  match r with
  | Row _ b inside => b && forallb all_render inside
  end.

Fixpoint rerender (r : row) : row :=
  match r with
  | Row v _ inside => Row v true (map rerender inside)
  end.

Definition layout (ph : list_phase) : M unit :=
  match ph with
  | Mounts => ComboBoxList.layoutEffect
  | Updates => ComboBoxList.layoutCleanup ;; ComboBoxList.layoutEffect
  | Unmounts => ComboBoxList.layoutCleanup
  | Idle => ret tt
  end.

Fixpoint passive (values : list string) : M unit :=
  match values with
  | [] => ret tt
  | v :: rest => ComboBoxOption.effect v ;; passive rest
  end.

Definition commit (p : Pass) : M unit :=
  layout (phase p) ;; passive (rendered p).

(** A pass started by a render of the controller: the context value is a
    new object at every such render, so the list and every option under it
    render again. *)
Definition of_controller (first : bool) (forest : list row) : Pass :=
  mkPass (if first then Mounts else Updates) (map rerender forest).

End Commit.

(** ** Key presses between renders

    A key press runs [onKeyDown] from the closure kept by [useCallback].
    That closure always reads the [selected] of the latest render, which is
    all the arrow keys and Escape read; [closure] is the environment the
    latest render builds from the state, and [press] runs [onKeyDown] from
    it.  The [onSelect] in that closure is the one of the render in which
    the selection last changed: what Enter invokes across renders is
    stated with [renders], not with [press]. *)

Definition closure (onSelect : option callback) (m : Machine) : Env :=
  mkEnv (selected m) (showPopover m) onSelect.

Definition press (onSelect : option callback) (key : string) (m : Machine)
  : Machine :=
  snd (ComboBox.onKeyDown (closure onSelect m) key m).

(** The machine selects the registry element at index [k]. *)
Definition selects (m : Machine) (opts : list string) (k : nat) : Prop :=
  exists s, nth_error opts k = Some s /\ selected m = JS.Str s.

(** The cycling property as the specification words it. *)
Definition arrow_down_cycles (opts : list string) : Prop :=
  forall onSelect m n,
    options_current m = Some opts ->
    selected m = JS.Null ->
    (1 <= n)%nat ->
    selects (Nat.iter n (press onSelect "ArrowDown") m) opts
            ((n - 1) mod List.length opts).

Definition wraps_at_last (opts : list string) : Prop :=
  forall onSelect m,
    options_current m = Some opts ->
    selects m opts (List.length opts - 1) ->
    selects (press onSelect "ArrowDown" m) opts 0.

(** The index [getSelectedIndex] computes over a registry [arr], and the
    states the setters produce, named for use in statements. *)
Definition selectedIndex (sel : JS.value) (arr : list string) : Z :=
  if JS.not sel then -1 else JS.indexOf arr (JS.or sel (JS.Str "")).

Definition with_selected (v : JS.value) (m : Machine) : Machine :=
  snd (setSelected v m).

Definition with_showPopover (b : bool) (m : Machine) : Machine :=
  snd (setShowPopover b m).

Definition prevented (m : Machine) : Machine :=
  snd (preventDefault m).

Definition called (cb : callback) (v : JS.value) (m : Machine) : Machine :=
  snd (invoke (Some cb) v m).

(** The state right after mount over a registry [opts]. *)
Definition registry (opts : list string) : Machine :=
  mkMachine JS.Null false false (Some opts) [] false [].

(** Where focus went, as the blur check asks it: the focused node [f] is
    the node a ref holds, or lies strictly below it. *)
Definition focus_is (ref : option DOM.node) (f : DOM.node) : Prop :=
  exists n, ref = Some n /\ DOM.id n = DOM.id f.

Definition focus_below (ref : option DOM.node) (f : DOM.node) : Prop :=
  exists n, ref = Some n /\ DOM.descendant n (DOM.id f).

Definition focus_stays (page : DOM.Page) (f : DOM.node) : Prop :=
  focus_is (DOM.inputRef_current page) f
  \/ focus_is (DOM.listRef_current page) f
  \/ focus_below (DOM.listRef_current page) f.

(** Every function of the widget that runs after render: the controller's
    handlers, the frame callback, the frame itself and the effects. *)
Definition handlers (env : Env) (key value : string) (page : DOM.Page)
  : list (M unit) :=
  [ ComboBox.onArrowDown env; ComboBox.onArrowUp env;
    ComboBox.onItemSelect env; ComboBox.onEscape;
    ComboBox.onKeyDown env key; ComboBox.onInputChange env;
    ComboBox.handleBlur; ComboBox.blurCheck page;
    ComboBox.animationFrame page; ComboBox.handleFocus;
    ComboBox.handleSelect env value;
    ComboBoxList.layoutEffect; ComboBoxList.layoutCleanup;
    ComboBoxOption.effect value ].

(** The machine after a sequence of render passes from mount on. *)
Definition after_passes (ps : list Commit.Pass) : Machine :=
  fold_left (fun m p => snd (Commit.commit p m)) ps initial.

(** The registry invariant as the specification words it: after every
    pass the registry is the list of the options in the tree. *)
Definition registry_tracks_rendered : Prop :=
  forall ps p,
    options_current (after_passes (ps ++ [p])) = Some (Commit.mounted p).

(** The closures kept after a sequence of renders, the first of which is
    the mount; each render is given by the environment it builds. *)
Definition renders (envs : list Env) : option ComboBox.Callbacks :=
  fold_left (fun prev now => Some (ComboBox.hooks prev now)) envs None.

(** Running a sequence of the widget's functions one after the other, and
    the outcome of each call along the way. *)
Definition run_all (hs : list (M unit)) (m : Machine) : Machine :=
  fold_left (fun m h => snd (h m)) hs m.

Fixpoint outcomes (hs : list (M unit)) (m : Machine) : list (result unit) :=
  match hs with
  | [] => []
  | h :: rest => fst (h m) :: outcomes rest (snd (h m))
  end.

(** A function of the widget, from whatever closure and with whatever
    event data. *)
Definition is_handler (h : M unit) : Prop :=
  exists env key value page, In h (handlers env key value page).

(** The machine with its animation-frame queue emptied, as the browser
    hands it to the queued functions. *)
Definition drained (m : Machine) : Machine :=
  mkMachine (selected m) (showPopover m) (expanded m) (options_current m)
            (calls m) (defaultPrevented m) [].

(** The ArrowUp step as the specification words it, the selection being
    taken by its position in the registry. *)
Definition arrow_up_steps_back (opts : list string) : Prop :=
  forall env m k s,
    options_current m = Some opts ->
    nth_error opts k = Some s ->
    env_selected env = JS.Str s ->
    selected (snd (ComboBox.onArrowUp env m)) = JS.get opts (Z.of_nat k - 1).

(** Enter and click as the specification words them: the callback invoked
    is the [onSelect] given to the latest render. *)
Definition enter_invokes_latest (sel : JS.value) : Prop :=
  forall earlier latest cbs m cb,
    renders (earlier ++ [latest]) = Some cbs ->
    env_selected latest = sel ->
    env_onSelect latest = Some cb ->
    calls (snd (ComboBox.onKeyDown (ComboBox.by_selected cbs) "Enter" m))
    = (calls m ++ [(cb, sel)])%list.

Definition click_invokes_latest : Prop :=
  forall earlier latest ctx v m cb,
    renders (earlier ++ [latest]) = Some (ComboBox.ctx_callbacks ctx) ->
    env_onSelect latest = Some cb ->
    calls (snd (ComboBoxOption.onClick ctx v m))
    = (calls m ++ [(cb, JS.Str v)])%list.

(** In a sequence of renders, [kept] is the one in which the selection
    last changed: it is the mount or follows a render with another
    selection, and every render after it has its selection. *)
Definition selection_last_changed (earlier : list Env) (kept : Env)
    (later : list Env) : Prop :=
  (earlier = []
   \/ exists before prev,
        earlier = (before ++ [prev])%list
        /\ env_selected prev <> env_selected kept)
  /\ Forall (fun e => env_selected e = env_selected kept) later.

(** * Properties *)

(** ** Arrays *)

Section Arrays.

Lemma get_nth (arr : list string) (k : nat) (s : string) :
  nth_error arr k = Some s -> JS.get arr (Z.of_nat k) = JS.Str s.
Proof.
  intros H. unfold JS.get.
  destruct (Z.ltb_spec (Z.of_nat k) 0) as [Hneg | _]; [lia |].
  now rewrite Nat2Z.id, H.
Qed.

Lemma get_negative (arr : list string) (i : Z) :
  i < 0 -> JS.get arr i = JS.Undefined.
Proof.
  intros H. unfold JS.get.
  destruct (Z.ltb_spec i 0); [reflexivity | lia].
Qed.

Lemma get_beyond (arr : list string) (i : Z) :
  JS.length arr <= i -> JS.get arr i = JS.Undefined.
Proof.
  intros H. unfold JS.get, JS.length in *.
  destruct (Z.ltb_spec i 0); [reflexivity |].
  assert (Hlen : (List.length arr <= Z.to_nat i)%nat) by lia.
  apply nth_error_None in Hlen. now rewrite Hlen.
Qed.

Lemma indexOf_from_absent (arr : list string) (x : string) (k : Z) :
  ~ In x arr -> JS.indexOf_from arr (JS.Str x) k = -1.
Proof.
  revert k. induction arr as [| y rest IH]; intros k Hnot; simpl.
  - reflexivity.
  - destruct (String.eqb_spec y x) as [-> | _].
    + exfalso. apply Hnot. now left.
    + apply IH. intros Hin. apply Hnot. now right.
Qed.

(** [indexOf] finds the first occurrence. *)
Lemma indexOf_from_first (pre post : list string) (x : string) (k : Z) :
  ~ In x pre ->
  JS.indexOf_from (pre ++ x :: post) (JS.Str x) k
  = k + Z.of_nat (List.length pre).
Proof.
  revert k. induction pre as [| y rest IH]; intros k Hnot; simpl.
  - rewrite String.eqb_refl. lia.
  - destruct (String.eqb_spec y x) as [-> | _].
    + exfalso. apply Hnot. now left.
    + rewrite IH by (intros Hin; apply Hnot; now right). lia.
Qed.

(** With pairwise distinct values, [indexOf] inverts indexing. *)
Lemma indexOf_nth (arr : list string) (k : nat) (x : string) :
  NoDup arr -> nth_error arr k = Some x ->
  JS.indexOf arr (JS.Str x) = Z.of_nat k.
Proof.
  intros Hnd Hk.
  destruct (nth_error_split arr k Hk) as (pre & post & -> & Hlen).
  unfold JS.indexOf. rewrite indexOf_from_first.
  - lia.
  - apply NoDup_remove_2 in Hnd. intros Hin. apply Hnd.
    apply in_or_app. now left.
Qed.

Lemma not_Str (s : string) : s <> "" -> JS.not (JS.Str s) = false.
Proof.
  intros H. simpl. now apply String.eqb_neq.
Qed.

End Arrays.

(** ** What each handler computes *)

Section Runs.

Variable env : Env.

Lemma getSelectedIndex_run (m : Machine) (arr : list string) :
  options_current m = Some arr ->
  ComboBox.getSelectedIndex env m
  = (Ok (selectedIndex (env_selected env) arr), m).
Proof.
  intros H. unfold ComboBox.getSelectedIndex, selectedIndex.
  destruct (JS.not (env_selected env)); [reflexivity |].
  unfold bind, read_options. now rewrite H.
Qed.

Lemma onArrowDown_run (m : Machine) (arr : list string) :
  options_current m = Some arr ->
  ComboBox.onArrowDown env m
  = (Ok tt,
     let i := selectedIndex (env_selected env) arr in
     with_selected (JS.get arr (if i + 1 =? JS.length arr then 0 else i + 1)) m).
Proof.
  intros H. unfold ComboBox.onArrowDown.
  unfold bind at 1. unfold read_options at 1.
  unfold bind at 1. rewrite (getSelectedIndex_run m arr H).
  unfold bind. rewrite H. simpl.
  now destruct (_ =? _).
Qed.

Lemma onArrowUp_run (m : Machine) (arr : list string) :
  options_current m = Some arr ->
  ComboBox.onArrowUp env m
  = (Ok tt,
     let i := selectedIndex (env_selected env) arr in
     with_selected
       (JS.get arr (if i =? -1 then JS.length arr - 1 else i - 1)) m).
Proof.
  intros H. unfold ComboBox.onArrowUp.
  unfold bind at 1. unfold read_options at 1.
  unfold bind at 1. rewrite (getSelectedIndex_run m arr H).
  cbv zeta. destruct (_ =? -1); unfold bind; rewrite H; reflexivity.
Qed.

Lemma onKeyDown_ArrowDown :
  ComboBox.onKeyDown env "ArrowDown" = (preventDefault ;; ComboBox.onArrowDown env).
Proof. reflexivity. Qed.

Lemma onKeyDown_ArrowUp :
  ComboBox.onKeyDown env "ArrowUp" = (preventDefault ;; ComboBox.onArrowUp env).
Proof. reflexivity. Qed.

Lemma onKeyDown_Escape :
  ComboBox.onKeyDown env "Escape" = (preventDefault ;; ComboBox.onEscape).
Proof. reflexivity. Qed.

Lemma onKeyDown_Enter :
  ComboBox.onKeyDown env "Enter" = (preventDefault ;; ComboBox.onItemSelect env).
Proof. reflexivity. Qed.

End Runs.

Lemma press_ArrowDown (onSelect : option callback) (m : Machine)
    (arr : list string) :
  options_current m = Some arr ->
  press onSelect "ArrowDown" m
  = let i := selectedIndex (selected m) arr in
    with_selected (JS.get arr (if i + 1 =? JS.length arr then 0 else i + 1))
                  (prevented m).
Proof.
  intros H. unfold press. rewrite onKeyDown_ArrowDown.
  unfold bind at 1. unfold preventDefault at 1.
  erewrite onArrowDown_run by exact H. reflexivity.
Qed.

Lemma press_ArrowDown_registry (onSelect : option callback) (m : Machine)
    (arr : list string) :
  options_current m = Some arr ->
  options_current (press onSelect "ArrowDown" m) = Some arr.
Proof.
  intros H. rewrite (press_ArrowDown onSelect m arr H). exact H.
Qed.

(** ** ArrowDown *)

Example down_abc_4 :
  map (fun n => selected (Nat.iter n (press None "ArrowDown") (registry ["a"; "b"; "c"])))
      [1; 2; 3; 4]%nat
  = [JS.Str "a"; JS.Str "b"; JS.Str "c"; JS.Str "a"].
Proof. reflexivity. Qed.

Example down_aab_3 :
  map (fun n => selected (Nat.iter n (press None "ArrowDown") (registry ["a"; "a"; "b"])))
      [1; 2; 3; 4]%nat
  = [JS.Str "a"; JS.Str "a"; JS.Str "a"; JS.Str "a"].
Proof. reflexivity. Qed.

Example down_empty_value :
  map (fun n => selected (Nat.iter n (press None "ArrowDown") (registry [""; "a"])))
      [1; 2; 3]%nat
  = [JS.Str ""; JS.Str ""; JS.Str ""].
Proof. reflexivity. Qed.

Section Cycling.

Variable opts : list string.
Hypothesis nonempty : opts <> [].
Hypothesis distinct : NoDup opts.
Hypothesis truthy : ~ In "" opts.

Variable onSelect : option callback.

Lemma down_from_none (m : Machine) :
  options_current m = Some opts ->
  selected m = JS.Null ->
  selects (press onSelect "ArrowDown" m) opts 0.
Proof.
  intros Hreg Hsel. rewrite (press_ArrowDown onSelect m opts Hreg).
  unfold selectedIndex. rewrite Hsel. simpl JS.not. cbv iota zeta.
  destruct opts as [| s rest] eqn:E; [contradiction |].
  exists s. split; [reflexivity |].
  replace (-1 + 1) with 0 by lia.
  destruct (Z.eqb_spec 0 (JS.length (s :: rest))); reflexivity.
Qed.

Lemma down_from_index (m : Machine) (k : nat) :
  options_current m = Some opts ->
  selects m opts k ->
  selects (press onSelect "ArrowDown" m) opts (S k mod List.length opts).
Proof.
  intros Hreg (s & Hk & Hsel).
  assert (Hlt : (k < List.length opts)%nat)
    by (apply nth_error_Some; congruence).
  assert (Hs : s <> "")
    by (intros ->; apply truthy; eapply nth_error_In; eassumption).
  rewrite (press_ArrowDown onSelect m opts Hreg).
  unfold selectedIndex, JS.or. rewrite Hsel, (not_Str s Hs).
  rewrite (indexOf_nth opts k s distinct Hk). cbv zeta.
  unfold selects, with_selected, JS.length. simpl selected.
  destruct (Z.eqb_spec (Z.of_nat k + 1) (Z.of_nat (List.length opts))) as [Hlast | Hmid].
  - replace (S k) with (List.length opts) by lia.
    rewrite Nat.Div0.mod_same.
    destruct opts as [| s0 rest]; [contradiction |].
    exists s0. split; reflexivity.
  - rewrite Nat.mod_small by lia.
    destruct (nth_error opts (S k)) as [s' |] eqn:Hnext.
    + exists s'. split; [reflexivity |].
      replace (Z.of_nat k + 1) with (Z.of_nat (S k)) by lia.
      now apply get_nth.
    + apply nth_error_None in Hnext. lia.
Qed.

Lemma down_iter (m : Machine) (n : nat) :
  options_current m = Some opts ->
  selected m = JS.Null ->
  let m' := Nat.iter (S n) (press onSelect "ArrowDown") m in
  options_current m' = Some opts /\ selects m' opts (n mod List.length opts).
Proof.
  intros Hreg Hsel. induction n as [| n [IHreg IHsel]].
  - cbv zeta. rewrite Nat.iter_succ. unfold Nat.iter at 1 2. cbv iota. split.
    + now apply press_ArrowDown_registry.
    + rewrite Nat.Div0.mod_0_l. now apply down_from_none.
  - cbv zeta. rewrite Nat.iter_succ. split.
    + now apply press_ArrowDown_registry.
    + replace (S n mod List.length opts)%nat
        with (S (n mod List.length opts) mod List.length opts)%nat.
      * now apply down_from_index.
      * replace (S (n mod List.length opts))%nat
          with (n mod List.length opts + 1)%nat by lia.
        replace (S n) with (n + 1)%nat by lia.
        apply Nat.Div0.add_mod_idemp_l.
Qed.

End Cycling.

(** C1, as amended.  When the registry is non-empty and holds pairwise
    distinct values none of which is the empty string, then from no
    selection the n-th ArrowDown press selects the registry element at
    index (n-1) mod length; and when the current selection is the last
    registry element the next ArrowDown selects index 0. *)
Theorem arrow_down_cycles_distinct (opts : list string) :
  opts <> [] -> NoDup opts -> ~ In "" opts ->
  arrow_down_cycles opts /\ wraps_at_last opts.
Proof.
  intros Hne Hnd Htruthy. split.
  - intros onSelect m n Hreg Hsel Hn.
    destruct n as [| n]; [lia |].
    replace (S n - 1)%nat with n by lia.
    now apply (down_iter opts Hne Hnd Htruthy onSelect m n).
  - intros onSelect m Hreg Hlast.
    assert (Hlen : (0 < List.length opts)%nat)
      by (destruct opts; [contradiction | simpl; lia]).
    pose proof (down_from_index opts Hne Hnd Htruthy onSelect m _ Hreg Hlast) as H.
    replace (S (List.length opts - 1)) with (List.length opts) in H by lia.
    now rewrite Nat.Div0.mod_same in H.
Qed.

Lemma arrow_down_cycles_distinct_witness :
  let opts := ["a"; "b"; "c"] in
  (opts <> [] /\ NoDup opts /\ ~ In "" opts)
  /\ arrow_down_cycles opts /\ wraps_at_last opts.
Proof.
  assert (Hne : ["a"; "b"; "c"] <> []) by discriminate.
  assert (Hnd : NoDup ["a"; "b"; "c"]).
  { repeat constructor; simpl; intuition discriminate. }
  assert (Htruthy : ~ In "" ["a"; "b"; "c"]).
  { simpl; intuition discriminate. }
  exact (conj (conj Hne (conj Hnd Htruthy))
              (arrow_down_cycles_distinct ["a"; "b"; "c"] Hne Hnd Htruthy)).
Defined.

(** C1 as worded fails on a registry that holds a value twice: the
    selection is kept by value and looked up with [indexOf], so the third
    press over ["a"; "a"; "b"] finds "a" at index 0 again and selects
    index 1, not index 2. *)
Lemma arrow_down_stuck_on_duplicate :
  ["a"; "a"; "b"] <> [] /\ ~ arrow_down_cycles ["a"; "a"; "b"].
Proof.
  split; [discriminate |].
  intros H.
  destruct (H None (registry ["a"; "a"; "b"]) 3%nat eq_refl eq_refl)
    as (s & Hnth & Hsel); [lia |].
  vm_compute in Hnth, Hsel. congruence.
Qed.

(** The same registry refutes the wrap-around sentence read by position:
    over ["a"; "b"; "a"] the last element is selected, yet ArrowDown moves
    to index 1. *)
Lemma arrow_down_no_wrap_on_duplicate :
  ~ wraps_at_last ["a"; "b"; "a"].
Proof.
  intros H.
  destruct (H None (with_selected (JS.Str "a") (registry ["a"; "b"; "a"])) eq_refl)
    as (s & Hnth & Hsel).
  - exists "a". split; reflexivity.
  - vm_compute in Hnth, Hsel. congruence.
Qed.

(** An option whose value is the empty string is read as no selection by
    [getSelectedIndex]: the second press selects it again. *)
Lemma arrow_down_stuck_on_empty_value :
  ~ arrow_down_cycles [""; "a"].
Proof.
  intros H.
  destruct (H None (registry [""; "a"]) 2%nat eq_refl eq_refl)
    as (s & Hnth & Hsel); [lia |].
  vm_compute in Hnth, Hsel. congruence.
Qed.

(** ** ArrowUp *)

Example up_then_down_abc :
  let m1 := press None "ArrowUp" (registry ["a"; "b"; "c"]) in
  let m2 := press None "ArrowDown" m1 in
  selected m1 = JS.Str "c" /\ selected m2 = JS.Str "a".
Proof. split; reflexivity. Qed.

Example up_at_first_abc :
  selected (press None "ArrowUp"
              (with_selected (JS.Str "a") (registry ["a"; "b"; "c"])))
  = JS.Undefined.
Proof. reflexivity. Qed.

Lemma selectedIndex_first (pre post : list string) (s : string) :
  s <> "" -> ~ In s pre ->
  selectedIndex (JS.Str s) (pre ++ s :: post) = Z.of_nat (List.length pre).
Proof.
  intros Hs Hpre. unfold selectedIndex, JS.or. rewrite (not_Str s Hs).
  unfold JS.indexOf. now rewrite indexOf_from_first.
Qed.

Lemma last_index (opts : list string) :
  opts <> [] ->
  exists s, nth_error opts (List.length opts - 1) = Some s.
Proof.
  intros Hne. destruct (nth_error opts (List.length opts - 1)) as [s |] eqn:E.
  - now exists s.
  - apply nth_error_None in E. destruct opts; [contradiction | simpl in E; lia].
Qed.

(** C2, as amended.  Over a non-empty registry of pairwise distinct values
    none of which is the empty string, [onArrowUp] with no current
    selection ([null], [undefined]) selects the last registry element;
    with the registry element at index [k] selected it selects what the
    lookup at [k - 1] yields, with no guard below: the element at index
    [k - 1] when [k >= 1], and at index 0 the out-of-range lookup leaves
    the selection [undefined], which is no registry element.  Nothing but
    the selection changes. *)
Theorem onArrowUp_steps_back_distinct (opts : list string) (env : Env)
    (m : Machine) :
  opts <> [] -> NoDup opts -> ~ In "" opts ->
  options_current m = Some opts ->
  let m' := snd (ComboBox.onArrowUp env m) in
  fst (ComboBox.onArrowUp env m) = Ok tt
  /\ (JS.not (env_selected env) = true ->
      selects m' opts (List.length opts - 1))
  /\ (forall k s, nth_error opts k = Some s -> env_selected env = JS.Str s ->
      selected m' = JS.get opts (Z.of_nat k - 1)
      /\ (forall j, k = S j -> selects m' opts j)
      /\ (k = 0%nat ->
          selected m' = JS.Undefined /\ ~ (exists j, selects m' opts j)))
  /\ showPopover m' = showPopover m
  /\ calls m' = calls m
  /\ options_current m' = Some opts.
Proof.
  intros Hne Hnd Htruthy Hreg m'. subst m'.
  rewrite (onArrowUp_run env m opts Hreg).
  cbv zeta. simpl fst. simpl snd.
  split; [reflexivity |]. split; [| split].
  - intros Hfalsy. unfold selectedIndex. rewrite Hfalsy.
    change (-1 =? -1) with true. cbv iota.
    destruct (last_index opts Hne) as (t & Ht).
    exists t. split; [exact Ht |].
    unfold with_selected. simpl selected.
    replace (JS.length opts - 1) with (Z.of_nat (List.length opts - 1)).
    + now apply get_nth.
    + unfold JS.length. destruct opts; [contradiction | simpl List.length; lia].
  - intros k s Hk Hsel.
    assert (Hs : s <> "")
      by (intros ->; apply Htruthy; eapply nth_error_In; eassumption).
    assert (Hi : selectedIndex (env_selected env) opts = Z.of_nat k).
    { unfold selectedIndex, JS.or. rewrite Hsel, (not_Str s Hs).
      now apply indexOf_nth. }
    rewrite Hi.
    destruct (Z.eqb_spec (Z.of_nat k) (-1)); [lia |].
    unfold with_selected, setSelected. cbn [snd selected].
    split; [reflexivity |]. split.
    + intros j ->.
      assert (Hlt : (S j < List.length opts)%nat)
        by (apply nth_error_Some; congruence).
      destruct (nth_error opts j) as [t |] eqn:Ht;
        [| apply nth_error_None in Ht; lia].
      exists t. split; [exact Ht |]. cbn [selected].
      replace (Z.of_nat (S j) - 1) with (Z.of_nat j) by lia.
      now apply get_nth.
    + intros ->. rewrite get_negative by lia. split; [reflexivity |].
      intros (j & t & _ & Ht). cbn [selected] in Ht. discriminate Ht.
  - unfold with_selected. simpl. auto.
Qed.

Lemma onArrowUp_steps_back_distinct_witness :
  let opts := ["a"; "b"; "c"] in
  let m := with_showPopover true (registry opts) in
  selected (snd (ComboBox.onArrowUp (mkEnv (JS.Str "a") true None) m))
  = JS.Undefined
  /\ selects (snd (ComboBox.onArrowUp (mkEnv (JS.Str "c") true None) m)) opts 1
  /\ selects (snd (ComboBox.onArrowUp (mkEnv JS.Undefined true None) m)) opts 2.
Proof.
  cbv zeta.
  assert (Hne : ["a"; "b"; "c"] <> []) by discriminate.
  assert (Hnd : NoDup ["a"; "b"; "c"]).
  { repeat constructor; simpl; intuition discriminate. }
  assert (Htruthy : ~ In "" ["a"; "b"; "c"]).
  { simpl; intuition discriminate. }
  pose proof (fun env =>
    onArrowUp_steps_back_distinct ["a"; "b"; "c"] env
      (with_showPopover true (registry ["a"; "b"; "c"]))
      Hne Hnd Htruthy eq_refl) as H.
  cbv zeta in H. split; [| split].
  - destruct (H (mkEnv (JS.Str "a") true None)) as (_ & _ & Hat & _).
    destruct (Hat 0%nat "a" eq_refl eq_refl) as (_ & _ & Hzero).
    exact (proj1 (Hzero eq_refl)).
  - destruct (H (mkEnv (JS.Str "c") true None)) as (_ & _ & Hat & _).
    destruct (Hat 2%nat "c" eq_refl eq_refl) as (_ & Hstep & _).
    exact (Hstep 1%nat eq_refl).
  - destruct (H (mkEnv JS.Undefined true None)) as (_ & Hnone & _).
    exact (Hnone eq_refl).
Defined.

(** C2 as worded fails on a registry that holds a value twice: with the
    element at index 2 of ["a"; "b"; "a"] selected, [indexOf] finds "a" at
    index 0 and ArrowUp looks up index -1, leaving [undefined] where the
    element at index 1 was to be selected. *)
Lemma arrow_up_lost_on_duplicate :
  ["a"; "b"; "a"] <> []
  /\ nth_error ["a"; "b"; "a"] 2 = Some "a"
  /\ selected (snd (ComboBox.onArrowUp (mkEnv (JS.Str "a") true None)
                      (with_selected (JS.Str "a") (registry ["a"; "b"; "a"]))))
     = JS.Undefined
  /\ ~ arrow_up_steps_back ["a"; "b"; "a"].
Proof.
  split; [discriminate |]. split; [reflexivity |]. split; [reflexivity |].
  intros H.
  specialize (H (mkEnv (JS.Str "a") true None)
                (with_selected (JS.Str "a") (registry ["a"; "b"; "a"]))
                2%nat "a" eq_refl eq_refl eq_refl).
  vm_compute in H. discriminate H.
Qed.

(** A selected option whose value is the empty string is read as no
    selection: over ["a"; ""] with the element at index 1 selected, ArrowUp
    selects the last element, which is that same element. *)
Lemma arrow_up_stuck_on_empty_value :
  ~ arrow_up_steps_back ["a"; ""].
Proof.
  intros H.
  specialize (H (mkEnv (JS.Str "") true None)
                (with_selected (JS.Str "") (registry ["a"; ""]))
                1%nat "" eq_refl eq_refl eq_refl).
  vm_compute in H. discriminate H.
Qed.

(** ** Enter, Escape and click *)

Lemma onItemSelect_run (env : Env) (m : Machine) :
  ComboBox.onItemSelect env m
  = (Ok tt,
     with_selected JS.Null
       (snd (invoke (env_onSelect env) (env_selected env)
                    (with_showPopover false m)))).
Proof.
  unfold ComboBox.onItemSelect, bind. simpl.
  destruct (env_onSelect env); reflexivity.
Qed.

Lemma handleSelect_run (env : Env) (value : string) (m : Machine) :
  ComboBox.handleSelect env value m
  = (Ok tt,
     with_selected JS.Null
       (with_showPopover false
          (snd (invoke (env_onSelect env) (JS.Str value) m)))).
Proof.
  unfold ComboBox.handleSelect, bind.
  destruct (env_onSelect env); reflexivity.
Qed.

(** C4.  In every state, [onEscape] (also as reached through [onKeyDown]
    from any closure) hides the popover and clears the selection, and the
    trace of [onSelect] invocations is what it was. *)
Theorem onEscape_silent (env : Env) (m : Machine) :
  let m' := snd (ComboBox.onEscape m) in
  fst (ComboBox.onEscape m) = Ok tt
  /\ showPopover m' = false
  /\ selected m' = JS.Null
  /\ calls m' = calls m
  /\ options_current m' = options_current m
  /\ ComboBox.onKeyDown env "Escape" m = ComboBox.onEscape (prevented m)
  /\ calls (snd (ComboBox.onKeyDown env "Escape" m)) = calls m.
Proof.
  repeat split; reflexivity.
Qed.

(** ** Key dispatch *)

Ltac split_ifs :=
  repeat match goal with
         | |- context [if ?c then _ else _] => destruct c; simpl
         end;
  try reflexivity.

Section Frame.

Variable env : Env.

Lemma onArrowDown_keeps_flag (m : Machine) :
  defaultPrevented (snd (ComboBox.onArrowDown env m)) = defaultPrevented m.
Proof.
  unfold ComboBox.onArrowDown, ComboBox.getSelectedIndex, bind, read_options,
    member, ret, throw.
  destruct (JS.not (env_selected env)); simpl;
    destruct (options_current m) as [arr |]; simpl; split_ifs.
Qed.

Lemma onArrowUp_keeps_flag (m : Machine) :
  defaultPrevented (snd (ComboBox.onArrowUp env m)) = defaultPrevented m.
Proof.
  unfold ComboBox.onArrowUp, ComboBox.getSelectedIndex, bind, read_options,
    member, ret, throw.
  destruct (JS.not (env_selected env)); simpl;
    destruct (options_current m) as [arr |]; simpl; split_ifs.
Qed.

Lemma onItemSelect_keeps_flag (m : Machine) :
  defaultPrevented (snd (ComboBox.onItemSelect env m)) = defaultPrevented m.
Proof.
  rewrite onItemSelect_run. simpl. now destruct (env_onSelect env).
Qed.

End Frame.

(** C5.  [onKeyDown] goes by the key name alone: each of "ArrowUp",
    "ArrowDown", "Escape" and "Enter" first suppresses the default and then
    runs its handler; for any other key the outcome is the machine as it
    was, so selection, popover, expanded flag, registry and the event's
    default-prevented flag are all untouched. *)
Theorem onKeyDown_dispatch (env : Env) (m : Machine) :
  (ComboBox.onKeyDown env "ArrowUp" m = ComboBox.onArrowUp env (prevented m)
   /\ ComboBox.onKeyDown env "ArrowDown" m = ComboBox.onArrowDown env (prevented m)
   /\ ComboBox.onKeyDown env "Escape" m = ComboBox.onEscape (prevented m)
   /\ ComboBox.onKeyDown env "Enter" m = ComboBox.onItemSelect env (prevented m))
  /\ (forall key, In key ["ArrowUp"; "ArrowDown"; "Escape"; "Enter"] ->
        defaultPrevented (snd (ComboBox.onKeyDown env key m)) = true)
  /\ (forall key, ~ In key ["ArrowUp"; "ArrowDown"; "Escape"; "Enter"] ->
        ComboBox.onKeyDown env key m = (Ok tt, m)).
Proof.
  split; [repeat split; reflexivity |]. split.
  - intros key [<- | [<- | [<- | [<- | []]]]].
    + rewrite onKeyDown_ArrowUp. unfold bind at 1. unfold preventDefault at 1.
      now rewrite onArrowUp_keeps_flag.
    + rewrite onKeyDown_ArrowDown. unfold bind at 1. unfold preventDefault at 1.
      now rewrite onArrowDown_keeps_flag.
    + reflexivity.
    + rewrite onKeyDown_Enter. unfold bind at 1. unfold preventDefault at 1.
      now rewrite onItemSelect_keeps_flag.
  - intros key Hother. unfold ComboBox.onKeyDown.
    destruct (String.eqb_spec key "ArrowUp") as [-> | _];
      [exfalso; apply Hother; simpl; tauto |].
    destruct (String.eqb_spec key "ArrowDown") as [-> | _];
      [exfalso; apply Hother; simpl; tauto |].
    destruct (String.eqb_spec key "Escape") as [-> | _];
      [exfalso; apply Hother; simpl; tauto |].
    destruct (String.eqb_spec key "Enter") as [-> | _];
      [exfalso; apply Hother; simpl; tauto |].
    reflexivity.
Qed.

Lemma onKeyDown_dispatch_witness :
  let env := mkEnv (JS.Str "a") true (Some (Callback 0)) in
  let m := with_selected (JS.Str "a") (registry ["a"; "b"]) in
  defaultPrevented (snd (ComboBox.onKeyDown env "Enter" m)) = true
  /\ ComboBox.onKeyDown env "enter" m = (Ok tt, m)
  /\ ComboBox.onKeyDown env "Tab" m = (Ok tt, m).
Proof.
  cbv zeta.
  pose proof (onKeyDown_dispatch (mkEnv (JS.Str "a") true (Some (Callback 0)))
                (with_selected (JS.Str "a") (registry ["a"; "b"])))
    as (_ & Hflag & Hother).
  split; [apply Hflag; simpl; tauto |].
  split; apply Hother; simpl; intuition discriminate.
Defined.

(** ** Focus and blur *)

Lemma ids_self (n : DOM.node) : In (DOM.id n) (DOM.ids n).
Proof. destruct n. now left. Qed.

Lemma descendant_ids (n : DOM.node) (x : nat) :
  DOM.descendant n x -> In x (DOM.ids n).
Proof.
  induction 1 as [i cs c Hc | i cs c x Hc _ IH]; simpl; right;
    apply in_flat_map; exists c; split; auto using ids_self.
Qed.

Lemma ids_descendant (n : DOM.node) (x : nat) :
  In x (DOM.ids n) -> x = DOM.id n \/ DOM.descendant n x.
Proof.
  revert x. induction n as [i cs IH] using DOM.node_ind_list.
  intros x [<- | Hin]; [now left | right].
  apply in_flat_map in Hin. destruct Hin as (c & Hc & Hx).
  rewrite Forall_forall in IH.
  destruct (IH c Hc x Hx) as [-> | Hbelow].
  - now apply DOM.desc_child.
  - now apply DOM.desc_below with c.
Qed.

Lemma contains_spec (n f : DOM.node) :
  DOM.contains n (Some f) = true
  <-> DOM.id f = DOM.id n \/ DOM.descendant n (DOM.id f).
Proof.
  unfold DOM.contains. rewrite existsb_exists. split.
  - intros (x & Hin & Heq). apply Nat.eqb_eq in Heq. subst x.
    now apply ids_descendant.
  - intros H. exists (DOM.id f). split; [| apply Nat.eqb_refl].
    destruct H as [-> | H]; [apply ids_self | now apply descendant_ids].
Qed.

Lemma eq_spec (f : DOM.node) (ref : option DOM.node) :
  DOM.eq (Some f) ref = true <-> focus_is ref f.
Proof.
  unfold focus_is. destruct ref as [n |]; simpl.
  - rewrite Nat.eqb_eq. split.
    + intros H. exists n. now split.
    + intros (n' & [= <-] & H). congruence.
  - split; [discriminate | intros (n & [=] & _)].
Qed.

Lemma blurCheck_stays (page : DOM.Page) (f : DOM.node) (m : Machine) :
  DOM.activeElement page = Some f ->
  focus_stays page f ->
  ComboBox.blurCheck page m = (Ok tt, m).
Proof.
  intros Hf Hstay. unfold ComboBox.blurCheck. rewrite Hf.
  destruct (DOM.eq (Some f) (DOM.inputRef_current page)) eqn:Ein;
    [reflexivity |].
  destruct (DOM.eq (Some f) (DOM.listRef_current page)) eqn:Eli;
    [reflexivity |].
  simpl orb. cbv iota.
  destruct Hstay as [H | [H | (n & Hn & Hbelow)]].
  - apply eq_spec in H. congruence.
  - apply eq_spec in H. congruence.
  - rewrite Hn.
    assert (Hc : DOM.contains n (Some f) = true)
      by (apply contains_spec; now right).
    now rewrite Hc.
Qed.

Lemma blurCheck_leaves (page : DOM.Page) (f : DOM.node) (m : Machine) :
  DOM.activeElement page = Some f ->
  ~ focus_stays page f ->
  ComboBox.blurCheck page m
  = (Ok tt, with_selected JS.Null (with_showPopover false m)).
Proof.
  intros Hf Hout. unfold ComboBox.blurCheck. rewrite Hf.
  destruct (DOM.eq (Some f) (DOM.inputRef_current page)) eqn:Ein.
  { exfalso. apply Hout. left. now apply eq_spec. }
  destruct (DOM.eq (Some f) (DOM.listRef_current page)) eqn:Eli.
  { exfalso. apply Hout. right. left. now apply eq_spec. }
  simpl orb. cbv iota.
  destruct (DOM.listRef_current page) as [l |] eqn:El; [| reflexivity].
  destruct (DOM.contains l (Some f)) eqn:Ec; [| reflexivity].
  exfalso. apply contains_spec in Ec. destruct Ec as [Hid | Hbelow].
  - simpl in Eli. apply Nat.eqb_neq in Eli. congruence.
  - apply Hout. right. right. exists l. now split.
Qed.

(** With nothing focused and no input mounted the two references compare
    equal under [==]: the check leaves the state alone. *)
Remark blurCheck_null_focus (list : option DOM.node) (m : Machine) :
  ComboBox.blurCheck (DOM.mkPage None None list) m = (Ok tt, m).
Proof. reflexivity. Qed.

Lemma blurCheck_ok (page : DOM.Page) (m : Machine) :
  fst (ComboBox.blurCheck page m) = Ok tt.
Proof.
  unfold ComboBox.blurCheck.
  destruct (_ || _); [reflexivity |].
  destruct (DOM.listRef_current page) as [l |]; split_ifs.
Qed.

(** The frame after a blur runs exactly the queued check. *)
Lemma handleBlur_then_frame (page : DOM.Page) (m : Machine) :
  frames m = [] ->
  ComboBox.animationFrame page (snd (ComboBox.handleBlur m))
  = ComboBox.blurCheck page m.
Proof.
  intros Hq. destruct m as [sel pop ex reg cs flag q]. simpl in Hq. subst q.
  unfold ComboBox.animationFrame, ComboBox.handleBlur. simpl.
  unfold bind.
  pose proof (blurCheck_ok page (mkMachine sel pop ex reg cs flag [])) as Hok.
  destruct (ComboBox.blurCheck page _) as [[[] | e] m']; simpl in Hok;
    [reflexivity | discriminate].
Qed.

(** C7.  [handleFocus] leaves the popover visible in every state.
    [handleBlur] itself changes nothing but the frame queue; when the frame
    fires, with [f] the element then focused, the check ends with the
    popover hidden and the selection [null] if [f] is neither the input,
    nor the list container, nor below the list container, and otherwise
    leaves the state as it was: a visible popover is hidden, and a
    selection cleared, exactly when focus has left. *)
Theorem blur_hides_iff_focus_left (page : DOM.Page) (f : DOM.node) (m : Machine) :
  DOM.activeElement page = Some f ->
  (fst (ComboBox.handleFocus m) = Ok tt
   /\ showPopover (snd (ComboBox.handleFocus m)) = true
   /\ selected (snd (ComboBox.handleFocus m)) = selected m)
  /\ (let m1 := snd (ComboBox.handleBlur m) in
      selected m1 = selected m /\ showPopover m1 = showPopover m
      /\ frames m1 = (frames m ++ [BlurCheck])%list)
  /\ (frames m = [] ->
      ComboBox.animationFrame page (snd (ComboBox.handleBlur m))
      = ComboBox.blurCheck page m)
  /\ (~ focus_stays page f ->
      let m' := snd (ComboBox.blurCheck page m) in
      fst (ComboBox.blurCheck page m) = Ok tt
      /\ showPopover m' = false
      /\ selected m' = JS.Null
      /\ calls m' = calls m
      /\ options_current m' = options_current m)
  /\ (focus_stays page f -> ComboBox.blurCheck page m = (Ok tt, m))
  /\ (showPopover m = true ->
      (showPopover (snd (ComboBox.blurCheck page m)) = false
       <-> ~ focus_stays page f))
  /\ (selected m <> JS.Null ->
      (selected (snd (ComboBox.blurCheck page m)) = JS.Null
       <-> ~ focus_stays page f)).
Proof.
  intros Hf.
  split; [repeat split; reflexivity |].
  split; [repeat split; reflexivity |].
  split; [apply handleBlur_then_frame |].
  split.
  { intros Hout. rewrite (blurCheck_leaves page f m Hf Hout).
    repeat split; reflexivity. }
  split; [now apply blurCheck_stays |].
  split.
  - intros Hshown. split.
    + intros Hhidden Hstay.
      rewrite (blurCheck_stays page f m Hf Hstay) in Hhidden.
      simpl in Hhidden. congruence.
    + intros Hout. now rewrite (blurCheck_leaves page f m Hf Hout).
  - intros Hsel. split.
    + intros Hcleared Hstay.
      rewrite (blurCheck_stays page f m Hf Hstay) in Hcleared.
      simpl in Hcleared. contradiction.
    + intros Hout. now rewrite (blurCheck_leaves page f m Hf Hout).
Qed.

Lemma blur_hides_iff_focus_left_witness :
  let option_b := DOM.Node 4 [] in
  let list := DOM.Node 2 [DOM.Node 3 []; option_b] in
  let input := DOM.Node 1 [] in
  let elsewhere := DOM.Node 9 [] in
  let m := with_selected (JS.Str "a") (with_showPopover true (registry ["a"; "b"])) in
  let inside := ComboBox.blurCheck
                  (DOM.mkPage (Some option_b) (Some input) (Some list)) m in
  let outside := ComboBox.blurCheck
                   (DOM.mkPage (Some elsewhere) (Some input) (Some list)) m in
  (selected (snd inside) = JS.Str "a" /\ showPopover (snd inside) = true)
  /\ (selected (snd outside) = JS.Null /\ showPopover (snd outside) = false).
Proof.
  cbv zeta. split.
  - assert (Hstay : ComboBox.blurCheck
                      (DOM.mkPage (Some (DOM.Node 4 [])) (Some (DOM.Node 1 []))
                         (Some (DOM.Node 2 [DOM.Node 3 []; DOM.Node 4 []])))
                      (with_selected (JS.Str "a")
                         (with_showPopover true (registry ["a"; "b"])))
                    = (Ok tt, with_selected (JS.Str "a")
                                (with_showPopover true (registry ["a"; "b"])))).
    { refine (proj1 (proj2 (proj2 (proj2 (proj2
        (blur_hides_iff_focus_left
           (DOM.mkPage (Some (DOM.Node 4 [])) (Some (DOM.Node 1 []))
                       (Some (DOM.Node 2 [DOM.Node 3 []; DOM.Node 4 []])))
           (DOM.Node 4 []) _ eq_refl))))) _).
      right. right. exists (DOM.Node 2 [DOM.Node 3 []; DOM.Node 4 []]).
      split; [reflexivity |].
      apply (DOM.desc_child 2 [DOM.Node 3 []; DOM.Node 4 []] (DOM.Node 4 [])).
      simpl. tauto. }
    rewrite Hstay. split; reflexivity.
  - assert (Hout : ~ focus_stays
                       (DOM.mkPage (Some (DOM.Node 9 [])) (Some (DOM.Node 1 []))
                          (Some (DOM.Node 2 [DOM.Node 3 []; DOM.Node 4 []])))
                       (DOM.Node 9 [])).
    { intros [(n & [= <-] & Hid) | [(n & [= <-] & Hid) | (n & [= <-] & Hbelow)]];
        try discriminate Hid.
      apply descendant_ids in Hbelow. simpl in Hbelow.
      repeat (destruct Hbelow as [Hbelow | Hbelow]; [discriminate Hbelow |]).
      exact Hbelow. }
    destruct (proj1 (proj2 (proj2 (proj2
      (blur_hides_iff_focus_left
         (DOM.mkPage (Some (DOM.Node 9 [])) (Some (DOM.Node 1 []))
                     (Some (DOM.Node 2 [DOM.Node 3 []; DOM.Node 4 []])))
         (DOM.Node 9 [])
         (with_selected (JS.Str "a")
            (with_showPopover true (registry ["a"; "b"]))) eq_refl)))) Hout)
      as (_ & Hpop & Hsel & _).
    split; [exact Hsel | exact Hpop].
Defined.

(** ** Rendering outside the controller *)

Lemma run_tasks_ok (page : DOM.Page) (ts : list task) (m : Machine) :
  fst (ComboBox.run_tasks page ts m) = Ok tt.
Proof.
  revert m. induction ts as [| [] rest IH]; intros m; [reflexivity |].
  simpl. unfold bind.
  pose proof (blurCheck_ok page m) as Hok.
  destruct (ComboBox.blurCheck page m) as [[[] | e] m']; simpl in Hok;
    [apply IH | discriminate].
Qed.

Lemma handlers_outcome (env : Env) (key value : string) (page : DOM.Page)
    (h : M unit) (m : Machine) :
  In h (handlers env key value page) ->
  fst (h m) = Ok tt
  \/ (fst (h m) = Throw TypeError /\ options_current m = None).
Proof.
  unfold handlers. simpl.
  intros [<- | [<- | [<- | [<- | [<- | [<- | [<- | [<- | [<- | [<- | [<- |
          [<- | [<- | [<- | []]]]]]]]]]]]]]].
  - unfold ComboBox.onArrowDown, ComboBox.getSelectedIndex, bind, read_options,
      member, ret, throw.
    destruct (JS.not (env_selected env)); simpl;
      destruct (options_current m); simpl; split_ifs; auto.
  - unfold ComboBox.onArrowUp, ComboBox.getSelectedIndex, bind, read_options,
      member, ret, throw.
    destruct (JS.not (env_selected env)); simpl;
      destruct (options_current m); simpl; split_ifs; auto.
  - left. now rewrite onItemSelect_run.
  - left. reflexivity.
  - unfold ComboBox.onKeyDown.
    destruct (String.eqb key "ArrowUp").
    { unfold bind at 1. unfold preventDefault at 1.
      unfold ComboBox.onArrowUp, ComboBox.getSelectedIndex, bind, read_options,
        member, ret, throw.
      destruct (JS.not (env_selected env)); simpl;
        destruct (options_current m); simpl; split_ifs; auto. }
    destruct (String.eqb key "ArrowDown").
    { unfold bind at 1. unfold preventDefault at 1.
      unfold ComboBox.onArrowDown, ComboBox.getSelectedIndex, bind, read_options,
        member, ret, throw.
      destruct (JS.not (env_selected env)); simpl;
        destruct (options_current m); simpl; split_ifs; auto. }
    destruct (String.eqb key "Escape"); [left; reflexivity |].
    destruct (String.eqb key "Enter"); [| left; reflexivity].
    left. unfold bind at 1. unfold preventDefault at 1.
    now rewrite onItemSelect_run.
  - left. unfold ComboBox.onInputChange, bind. simpl.
    now destruct (negb (env_showPopover env)).
  - left. reflexivity.
  - left. apply blurCheck_ok.
  - left. apply run_tasks_ok.
  - left. reflexivity.
  - left. now rewrite handleSelect_run.
  - left. reflexivity.
  - left. reflexivity.
  - left. unfold ComboBoxOption.effect, bind, read_options.
    now destruct (options_current m).
Qed.

(** C8.  Each of the three elements, rendered with no context value,
    throws the "must be wrapped" error as the result of the render call
    itself; with a context value none of them throws; and nothing that
    runs after render (handlers, frame callback, effects) ever throws an
    [Error] of the program: they return normally whenever the registry ref
    holds an array. *)
Theorem context_missing_only_error :
  (forall v, ComboBoxInput.render None v = Throw (Error context_missing))
  /\ ComboBoxList.render None = Throw (Error context_missing)
  /\ (forall v, ComboBoxOption.render None v = Throw (Error context_missing))
  /\ (forall ctx v, exists e, ComboBoxInput.render (Some ctx) v = Ok e)
  /\ (forall ctx, exists e, ComboBoxList.render (Some ctx) = Ok e)
  /\ (forall ctx v, exists e, ComboBoxOption.render (Some ctx) v = Ok e)
  /\ (forall env key value page h m message,
        In h (handlers env key value page) ->
        fst (h m) <> Throw (Error message))
  /\ (forall env key value page h m,
        In h (handlers env key value page) ->
        options_current m <> None ->
        fst (h m) = Ok tt).
Proof.
  repeat split; try (intros; eexists; reflexivity).
  - intros env key value page h m message Hin.
    destruct (handlers_outcome env key value page h m Hin) as [-> | [-> _]];
      discriminate.
  - intros env key value page h m Hin Hreg.
    destruct (handlers_outcome env key value page h m Hin) as [H | [_ H]];
      [exact H | contradiction].
Qed.

Lemma context_missing_only_error_witness :
  ComboBoxOption.render None "a" = Throw (Error context_missing)
  /\ fst (ComboBox.onArrowUp (mkEnv (JS.Str "a") true None)
            (registry ["a"; "b"])) = Ok tt.
Proof.
  destruct context_missing_only_error as (_ & _ & Hopt & _ & _ & _ & _ & Hok).
  split; [apply Hopt |].
  apply (Hok (mkEnv (JS.Str "a") true None) "ArrowUp" "a"
             (DOM.mkPage None None None)).
  - simpl. tauto.
  - discriminate.
Defined.

(** ** The registry across render passes *)

Lemma effect_appends (value : string) (m : Machine) (arr : list string) :
  options_current m = Some arr ->
  fst (ComboBoxOption.effect value m) = Ok tt
  /\ options_current (snd (ComboBoxOption.effect value m))
     = Some (arr ++ [value])%list.
Proof.
  intros H. unfold ComboBoxOption.effect, bind, read_options.
  rewrite H. split; reflexivity.
Qed.

Lemma passive_appends (values : list string) (m : Machine) (arr : list string) :
  options_current m = Some arr ->
  options_current (snd (Commit.passive values m)) = Some (arr ++ values)%list.
Proof.
  revert m arr. induction values as [| v rest IH]; intros m arr H; simpl.
  - now rewrite app_nil_r.
  - unfold bind.
    destruct (effect_appends v m arr H) as [Hok Hreg].
    destruct (ComboBoxOption.effect v m) as [[[] | e] m']; simpl in Hok, Hreg;
      [| discriminate].
    rewrite (IH m' _ Hreg). now rewrite <- app_assoc.
Qed.

Lemma layout_resets (ph : Commit.list_phase) (m : Machine) :
  ph <> Commit.Idle ->
  fst (Commit.layout ph m) = Ok tt
  /\ options_current (snd (Commit.layout ph m)) = Some [].
Proof.
  destruct ph; intros H; try contradiction; split; reflexivity.
Qed.

Lemma effects_leaves (values : list string) :
  flat_map Commit.effects (Commit.leaves values) = values
  /\ flat_map Commit.values (Commit.leaves values) = values.
Proof.
  unfold Commit.leaves.
  induction values as [| v rest [IHe IHv]]; simpl; [now split |].
  now rewrite IHe, IHv.
Qed.

Lemma rerender_leaves (values : list string) :
  map Commit.rerender (Commit.leaves values) = Commit.leaves values.
Proof.
  unfold Commit.leaves. induction values as [| v rest IH]; simpl;
    [reflexivity | now rewrite IH].
Qed.

Lemma rerender_all (r : Commit.row) : Commit.all_render (Commit.rerender r) = true.
Proof.
  induction r as [v b inside IH] using Commit.row_ind_list. simpl.
  induction IH as [| c rest Hc _ IHrest]; simpl; [reflexivity |].
  now rewrite Hc.
Qed.

Lemma rerender_forest (forest : list Commit.row) :
  forallb Commit.all_render (map Commit.rerender forest) = true.
Proof.
  induction forest as [| r rest IH]; simpl; [reflexivity |].
  now rewrite rerender_all.
Qed.

(** When every option renders, the effects that run are those of all the
    options in the tree, each once. *)
Lemma effects_permute_values (r : Commit.row) :
  Commit.all_render r = true ->
  Permutation (Commit.effects r) (Commit.values r).
Proof.
  induction r as [v b inside IH] using Commit.row_ind_list. simpl.
  intros Hall. apply andb_prop in Hall. destruct Hall as [-> Hinside].
  apply Permutation_sym, Permutation_cons_app. rewrite app_nil_r.
  apply Permutation_sym.
  induction IH as [| c rest Hc _ IHrest]; simpl; [constructor |].
  simpl in Hinside. apply andb_prop in Hinside. destruct Hinside as [Hc' Hrest].
  apply Permutation_app; auto.
Qed.

Lemma forest_permutes (forest : list Commit.row) :
  forallb Commit.all_render forest = true ->
  Permutation (flat_map Commit.effects forest) (flat_map Commit.values forest).
Proof.
  induction forest as [| r rest IH]; simpl; intros Hall; [constructor |].
  apply andb_prop in Hall. destruct Hall as [Hr Hrest].
  apply Permutation_app; [now apply effects_permute_values | now apply IH].
Qed.

(** With no option inside another, effects run in rendered order. *)
Lemma flat_forest_in_order (forest : list Commit.row) :
  forallb Commit.all_render forest = true ->
  forallb Commit.is_leaf forest = true ->
  flat_map Commit.effects forest = flat_map Commit.values forest.
Proof.
  induction forest as [| [v b [| c inside]] rest IH]; simpl; intros Hall Hflat;
    try discriminate; [reflexivity |].
  rewrite andb_true_r in Hall. apply andb_prop in Hall.
  destruct Hall as [-> Hrest]. simpl. f_equal. now apply IH.
Qed.

(** A pass in which the list commits or unmounts rebuilds the registry
    from nothing. *)
Lemma commit_rebuilds (q : Commit.Pass) (n : Machine) :
  Commit.phase q <> Commit.Idle ->
  options_current (snd (Commit.commit q n)) = Some (Commit.rendered q).
Proof.
  intros Hq. unfold Commit.commit, bind.
  destruct (layout_resets (Commit.phase q) n Hq) as [Hok Hreg].
  destruct (Commit.layout (Commit.phase q) n) as [[[] | e] n'];
    simpl in Hok, Hreg; [| discriminate].
  now rewrite (passive_appends _ n' [] Hreg).
Qed.

(** A key press followed by the controller's render pass over options
    none of which sits inside another leaves the registry equal to the
    options rendered. *)
Lemma press_then_commit (onSelect : option callback) (key : string)
    (values : list string) (m : Machine) :
  options_current
    (snd (Commit.commit (Commit.of_controller false (Commit.leaves values))
                        (press onSelect key m)))
  = Some values.
Proof.
  rewrite commit_rebuilds by discriminate.
  unfold Commit.rendered, Commit.of_controller. simpl Commit.options.
  rewrite rerender_leaves. f_equal. apply effects_leaves.
Qed.

Example mount_then_update :
  options_current
    (after_passes [Commit.of_controller true (Commit.leaves ["a"; "b"]);
                   Commit.of_controller false (Commit.leaves ["a"; "b"; "c"]);
                   Commit.of_controller false (Commit.leaves ["b"; "c"])])
  = Some ["b"; "c"].
Proof. reflexivity. Qed.

(** An option inside another registers before the one that holds it. *)
Example nested_option_registers_first :
  let p := Commit.of_controller true
             [Commit.Row "a" true [Commit.leaf "b"]; Commit.leaf "c"] in
  Commit.mounted p = ["a"; "b"; "c"]
  /\ options_current (after_passes [p]) = Some ["b"; "a"; "c"].
Proof. split; reflexivity. Qed.

(** C9, as amended.  After every completed render pass in which the list
    container itself commits (it mounts or renders again), whatever the
    registry held before, the registry holds exactly the values of the
    options rendered in that pass, in the order their effects run: the
    options inside an option before that option, otherwise in rendered
    order.  When every option in the tree rendered in the pass, as in every
    pass started by a render of the controller, these are the values of
    all options in the tree, each once; and when moreover no option sits
    inside another, they are in rendered order.  The list container resets
    the registry at each of its commits and at unmount, and an option's
    effect appends its value once, with no check for a value already
    there. *)
Theorem registry_rebuilt_when_list_commits (p : Commit.Pass) (m : Machine) :
  Commit.phase p = Commit.Mounts \/ Commit.phase p = Commit.Updates ->
  let m' := snd (Commit.commit p m) in
  options_current m' = Some (Commit.rendered p)
  /\ (forallb Commit.all_render (Commit.options p) = true ->
      Permutation (Commit.rendered p) (Commit.mounted p))
  /\ (forallb Commit.all_render (Commit.options p) = true ->
      forallb Commit.is_leaf (Commit.options p) = true ->
      options_current m' = Some (Commit.mounted p))
  /\ (forall first forest,
      let q := Commit.of_controller first forest in
      options_current (snd (Commit.commit q m)) = Some (Commit.rendered q)
      /\ Permutation (Commit.rendered q) (Commit.mounted q))
  /\ (forall first values,
      options_current
        (snd (Commit.commit (Commit.of_controller first (Commit.leaves values)) m))
      = Some values)
  /\ options_current (snd (Commit.layout Commit.Unmounts m)) = Some []
  /\ (forall v arr, options_current m = Some arr ->
      options_current (snd (ComboBoxOption.effect v m)) = Some (arr ++ [v])%list).
Proof.
  intros Hphase.
  assert (Hactive : Commit.phase p <> Commit.Idle)
    by (destruct Hphase as [-> | ->]; discriminate).
  cbv zeta. split; [now apply commit_rebuilds |].
  split; [intros Hall; now apply forest_permutes |].
  split; [| split; [| split; [| split]]].
  - intros Hall Hflat. rewrite commit_rebuilds by assumption. f_equal.
    now apply flat_forest_in_order.
  - intros first forest. split.
    + apply commit_rebuilds. destruct first; discriminate.
    + apply forest_permutes. apply rerender_forest.
  - intros first values. rewrite commit_rebuilds by (destruct first; discriminate).
    unfold Commit.rendered, Commit.of_controller. simpl Commit.options.
    rewrite rerender_leaves. f_equal. apply effects_leaves.
  - reflexivity.
  - intros v arr Harr. now apply effect_appends.
Qed.

Lemma registry_rebuilt_when_list_commits_witness :
  let p := Commit.mkPass Commit.Updates
             [Commit.Row "b" true [Commit.leaf "d"]; Commit.leaf "c"] in
  let m := snd (Commit.commit
                  (Commit.of_controller true (Commit.leaves ["a"; "b"; "c"]))
                  initial) in
  options_current m = Some ["a"; "b"; "c"]
  /\ options_current
       (snd (Commit.commit (Commit.of_controller true (Commit.leaves ["x"])) m))
     = Some ["x"]
  /\ Commit.phase p = Commit.Updates
  /\ options_current (snd (Commit.commit p m)) = Some ["d"; "b"; "c"].
Proof.
  cbv zeta. split; [reflexivity |]. split; [reflexivity |].
  split; [reflexivity |].
  exact (proj1
    (registry_rebuilt_when_list_commits
       (Commit.mkPass Commit.Updates
          [Commit.Row "b" true [Commit.leaf "d"]; Commit.leaf "c"])
       (snd (Commit.commit
               (Commit.of_controller true (Commit.leaves ["a"; "b"; "c"]))
               initial))
       (or_intror eq_refl))).
Defined.

(** C9 as worded fails when an option renders in a pass the list takes
    no part in: after mounting the list with the single option "a", a pass
    that renders that option alone appends "a" a second time. *)
Lemma registry_duplicates_without_list :
  let mount := Commit.of_controller true [Commit.leaf "a"] in
  let again := Commit.mkPass Commit.Idle [Commit.leaf "a"] in
  options_current (after_passes [mount]) = Some ["a"]
  /\ Commit.mounted again = ["a"]
  /\ options_current (after_passes [mount; again]) = Some ["a"; "a"]
  /\ ~ registry_tracks_rendered.
Proof.
  cbv zeta. repeat split.
  intros H.
  specialize (H [Commit.of_controller true [Commit.leaf "a"]]
                (Commit.mkPass Commit.Idle [Commit.leaf "a"])).
  vm_compute in H. discriminate H.
Qed.

(** ** Closures after a render *)

Lemma value_eqb_eq (a b : JS.value) : JS.value_eqb a b = true -> a = b.
Proof.
  destruct a, b; simpl; try discriminate; try reflexivity.
  intros H. apply String.eqb_eq in H. now subst.
Qed.

(** The handlers whose dependencies reach [selected] always read the
    selection of the latest render, and [onInputChange] its [showPopover]. *)
Lemma hooks_fresh (prev : option ComboBox.Callbacks) (now : Env) :
  env_selected (ComboBox.by_selected (ComboBox.hooks prev now)) = env_selected now
  /\ env_showPopover (ComboBox.by_showPopover (ComboBox.hooks prev now))
     = env_showPopover now.
Proof.
  destruct prev as [[s p n] |]; simpl; [| now split].
  unfold ComboBox.useCallback. split.
  - destruct (JS.value_eqb _ _) eqn:E; [now apply value_eqb_eq | reflexivity].
  - destruct (Bool.eqb _ _) eqn:E; [now apply Bool.eqb_prop | reflexivity].
Qed.

(** The handlers with an empty dependency list keep the closure of the
    first render, and with it the [onSelect] passed at mount. *)
Lemma hooks_mount (prev : ComboBox.Callbacks) (now : Env) :
  ComboBox.by_nothing (ComboBox.hooks (Some prev) now) = ComboBox.by_nothing prev.
Proof. reflexivity. Qed.

Lemma render_closure (onSelect : option callback) (listId : string)
    (prev : option ComboBox.Callbacks) (m : Machine) :
  env_selected (ComboBox.by_selected
                  (ComboBox.ctx_callbacks (ComboBox.render onSelect listId prev m)))
  = env_selected (closure onSelect m).
Proof.
  unfold ComboBox.render. simpl. apply hooks_fresh.
Qed.

(** The arrow handlers read nothing of their closure but [selected]: the
    closure a render keeps for [onKeyDown] moves the selection as [press]
    does. *)
Lemma arrows_read_selected (e1 e2 : Env) :
  env_selected e1 = env_selected e2 ->
  ComboBox.onArrowDown e1 = ComboBox.onArrowDown e2
  /\ ComboBox.onArrowUp e1 = ComboBox.onArrowUp e2.
Proof.
  intros H.
  unfold ComboBox.onArrowDown, ComboBox.onArrowUp, ComboBox.getSelectedIndex.
  now rewrite H.
Qed.

Lemma rendered_ArrowDown (onSelect : option callback) (listId : string)
    (prev : option ComboBox.Callbacks) (m : Machine) :
  let ctx := ComboBox.render onSelect listId prev m in
  snd (ComboBox.onKeyDown (ComboBox.by_selected (ComboBox.ctx_callbacks ctx))
                          "ArrowDown" m)
  = press onSelect "ArrowDown" m.
Proof.
  cbv zeta. unfold press. rewrite !onKeyDown_ArrowDown.
  pose proof (render_closure onSelect listId prev m) as Hsel.
  now destruct (arrows_read_selected _ _ Hsel) as [-> _].
Qed.

(** ** Remaining handlers *)

(** Typing while the popover is hidden shows it and clears the selection. *)
Lemma onInputChange_opens (onSelect : option callback) (m : Machine) :
  showPopover m = false ->
  let m' := snd (ComboBox.onInputChange (closure onSelect m) m) in
  showPopover m' = true /\ selected m' = JS.Null.
Proof.
  intros H. unfold ComboBox.onInputChange, closure, bind. simpl.
  rewrite H. split; reflexivity.
Qed.

(** Without an [onSelect] prop nothing is invoked, by Enter or by click. *)
Remark no_callback_no_call (env : Env) (v : string) (m : Machine) :
  env_onSelect env = None ->
  calls (snd (ComboBox.onItemSelect env m)) = calls m
  /\ calls (snd (ComboBox.handleSelect env v m)) = calls m.
Proof.
  intros H. rewrite onItemSelect_run, handleSelect_run, H. split; reflexivity.
Qed.

(** * Further properties of the code *)

(** ** Looking up the selection *)

Lemma first_occurrence (arr : list string) (x : string) :
  In x arr ->
  exists pre post, arr = (pre ++ x :: post)%list /\ ~ In x pre.
Proof.
  induction arr as [| y rest IH]; intros Hin; [contradiction |].
  destruct (string_dec y x) as [-> | Hne].
  - exists [], rest. split; [reflexivity | intros []].
  - destruct Hin as [Heq | Hin]; [contradiction |].
    destruct (IH Hin) as (pre & post & -> & Hpre).
    exists (y :: pre), post. split; [reflexivity |].
    intros [Heq | Hin']; [contradiction | now apply Hpre].
Qed.

(** X1.  [getSelectedIndex] over a registry [arr]: the result is [-1] or an
    index in range; a result [i >= 0] is the first position holding the
    selected value; the result is [-1] exactly when the selection is falsy
    ([null], [undefined], the empty string) or is not in the registry. *)
Theorem getSelectedIndex_first_or_minus_one (env : Env) (m : Machine)
    (arr : list string) :
  options_current m = Some arr ->
  exists i,
    ComboBox.getSelectedIndex env m = (Ok i, m)
    /\ -1 <= i < JS.length arr
    /\ (0 <= i ->
        JS.get arr i = env_selected env
        /\ forall j, 0 <= j < i -> JS.get arr j <> env_selected env)
    /\ (i = -1 <->
        JS.not (env_selected env) = true
        \/ forall s, env_selected env = JS.Str s -> ~ In s arr).
Proof.
  intros Hreg. rewrite (getSelectedIndex_run env m arr Hreg).
  eexists. split; [reflexivity |].
  unfold selectedIndex, JS.or.
  destruct (JS.not (env_selected env)) eqn:Hfalsy.
  { split; [unfold JS.length; lia |]. split; [lia |].
    split; [now left | reflexivity]. }
  destruct (env_selected env) as [| | s] eqn:Hsel; try discriminate Hfalsy.
  destruct (in_dec string_dec s arr) as [Hin | Hout].
  - destruct (first_occurrence arr s Hin) as (pre & post & -> & Hpre).
    unfold JS.indexOf. rewrite indexOf_from_first by assumption.
    unfold JS.length. rewrite length_app. simpl List.length.
    split; [lia |]. split; [| split].
    + intros _. split.
      * replace (0 + Z.of_nat (List.length pre)) with (Z.of_nat (List.length pre)) by lia.
        apply get_nth. rewrite nth_error_app2 by lia.
        now rewrite Nat.sub_diag.
      * intros j Hj Heq.
        assert (Hlt : (Z.to_nat j < List.length pre)%nat) by lia.
        destruct (nth_error pre (Z.to_nat j)) as [t |] eqn:Ht;
          [| apply nth_error_None in Ht; lia].
        assert (Hget : JS.get (pre ++ s :: post) j = JS.Str t).
        { replace j with (Z.of_nat (Z.to_nat j)) by lia.
          apply get_nth. now rewrite nth_error_app1. }
        rewrite Hget in Heq. injection Heq as ->.
        apply Hpre. eapply nth_error_In. eassumption.
    + intros H. lia.
    + intros [H | H]; [discriminate H |].
      exfalso. now apply (H s eq_refl).
  - unfold JS.indexOf. rewrite indexOf_from_absent by assumption.
    split; [unfold JS.length; lia |]. split; [lia |].
    split; [| reflexivity]. intros _. right. now intros s' [= <-].
Qed.

Lemma getSelectedIndex_first_or_minus_one_witness :
  let env := mkEnv (JS.Str "b") true None in
  let m := registry ["a"; "b"; "b"] in
  exists i, ComboBox.getSelectedIndex env m = (Ok i, m)
            /\ -1 <= i < 3.
Proof.
  cbv zeta.
  destruct (getSelectedIndex_first_or_minus_one
              (mkEnv (JS.Str "b") true None) (registry ["a"; "b"; "b"])
              ["a"; "b"; "b"] eq_refl) as (i & Hrun & Hrange & _).
  exists i. split; [exact Hrun | exact Hrange].
Defined.

(** ** Arrow keys at the edges *)

Lemma press_ArrowUp (onSelect : option callback) (m : Machine)
    (arr : list string) :
  options_current m = Some arr ->
  press onSelect "ArrowUp" m
  = let i := selectedIndex (selected m) arr in
    with_selected (JS.get arr (if i =? -1 then JS.length arr - 1 else i - 1))
                  (prevented m).
Proof.
  intros H. unfold press. rewrite onKeyDown_ArrowUp.
  unfold bind at 1. unfold preventDefault at 1.
  erewrite onArrowUp_run by exact H. reflexivity.
Qed.

(** X2.  Over an empty registry both arrow keys return normally and leave the
    selection [undefined], whatever was selected before; nothing is
    invoked and the registry stays empty. *)
Theorem arrows_on_empty_registry (env : Env) (m : Machine) :
  options_current m = Some [] ->
  ComboBox.onArrowDown env m = (Ok tt, with_selected JS.Undefined m)
  /\ ComboBox.onArrowUp env m = (Ok tt, with_selected JS.Undefined m).
Proof.
  intros Hreg.
  rewrite (onArrowDown_run env m [] Hreg), (onArrowUp_run env m [] Hreg).
  assert (Hi : selectedIndex (env_selected env) [] = -1).
  { unfold selectedIndex. now destruct (JS.not (env_selected env)). }
  cbv zeta. rewrite Hi. split; reflexivity.
Qed.

Lemma arrows_on_empty_registry_witness :
  selected (snd (ComboBox.onArrowDown (mkEnv (JS.Str "a") true None)
                   (with_selected (JS.Str "a") (registry []))))
  = JS.Undefined.
Proof.
  now rewrite (proj1 (arrows_on_empty_registry (mkEnv (JS.Str "a") true None)
                        (with_selected (JS.Str "a") (registry [])) eq_refl)).
Defined.

(** X3.  A selected value that the registry no longer holds counts as no
    selection: over a non-empty registry ArrowDown then selects the first
    element and ArrowUp the last. *)
Theorem arrows_from_absent_selection (env : Env) (m : Machine)
    (opts : list string) (s : string) :
  options_current m = Some opts ->
  opts <> [] ->
  env_selected env = JS.Str s ->
  ~ In s opts ->
  selects (snd (ComboBox.onArrowDown env m)) opts 0
  /\ selects (snd (ComboBox.onArrowUp env m)) opts (List.length opts - 1).
Proof.
  intros Hreg Hne Hsel Hout.
  rewrite (onArrowDown_run env m opts Hreg), (onArrowUp_run env m opts Hreg).
  assert (Hi : selectedIndex (env_selected env) opts = -1).
  { unfold selectedIndex, JS.or. rewrite Hsel.
    destruct (JS.not (JS.Str s)); [reflexivity |].
    unfold JS.indexOf. now apply indexOf_from_absent. }
  cbv zeta. rewrite Hi. simpl snd. split.
  - destruct opts as [| s0 rest]; [contradiction |].
    exists s0. split; [reflexivity |].
    unfold with_selected. simpl selected.
    destruct (Z.eqb_spec (-1 + 1) (JS.length (s0 :: rest))); reflexivity.
  - destruct (last_index opts Hne) as (t & Ht).
    exists t. split; [exact Ht |].
    unfold with_selected. simpl selected. change (-1 =? -1) with true. cbv iota.
    replace (JS.length opts - 1) with (Z.of_nat (List.length opts - 1)).
    + now apply get_nth.
    + unfold JS.length. destruct opts; [contradiction | simpl List.length; lia].
Qed.

Lemma arrows_from_absent_selection_witness :
  let env := mkEnv (JS.Str "z") true None in
  let m := with_selected (JS.Str "z") (registry ["a"; "b"; "c"]) in
  selects (snd (ComboBox.onArrowDown env m)) ["a"; "b"; "c"] 0
  /\ selects (snd (ComboBox.onArrowUp env m)) ["a"; "b"; "c"] 2.
Proof.
  cbv zeta.
  refine (arrows_from_absent_selection (mkEnv (JS.Str "z") true None)
            (with_selected (JS.Str "z") (registry ["a"; "b"; "c"]))
            ["a"; "b"; "c"] "z" eq_refl _ eq_refl _).
  - discriminate.
  - simpl. intuition discriminate.
Defined.

(** ** ArrowUp, press after press *)

Section Climbing.

Variable opts : list string.
Hypothesis nonempty : opts <> [].
Hypothesis distinct : NoDup opts.
Hypothesis truthy : ~ In "" opts.

Variable onSelect : option callback.

Lemma press_ArrowUp_registry (m : Machine) :
  options_current m = Some opts ->
  options_current (press onSelect "ArrowUp" m) = Some opts.
Proof.
  intros H. rewrite (press_ArrowUp onSelect m opts H). exact H.
Qed.

Lemma selects_index (m : Machine) (k : nat) :
  selects m opts k ->
  selectedIndex (selected m) opts = Z.of_nat k /\ (k < List.length opts)%nat.
Proof.
  intros (s & Hk & Hsel).
  assert (Hs : s <> "")
    by (intros ->; apply truthy; eapply nth_error_In; eassumption).
  split.
  - unfold selectedIndex, JS.or. rewrite Hsel, (not_Str s Hs).
    now apply indexOf_nth.
  - apply nth_error_Some. congruence.
Qed.

Lemma up_from_falsy (m : Machine) :
  options_current m = Some opts ->
  JS.not (selected m) = true ->
  selects (press onSelect "ArrowUp" m) opts (List.length opts - 1).
Proof.
  intros Hreg Hfalsy. rewrite (press_ArrowUp onSelect m opts Hreg).
  unfold selectedIndex. rewrite Hfalsy. cbv zeta.
  change (-1 =? -1) with true. cbv iota.
  destruct (last_index opts nonempty) as (t & Ht).
  exists t. split; [exact Ht |].
  unfold with_selected. simpl selected.
  replace (JS.length opts - 1) with (Z.of_nat (List.length opts - 1)).
  - now apply get_nth.
  - unfold JS.length. destruct opts; [contradiction | simpl List.length; lia].
Qed.

Lemma up_from_index (m : Machine) (k : nat) :
  options_current m = Some opts ->
  selects m opts (S k) ->
  selects (press onSelect "ArrowUp" m) opts k.
Proof.
  intros Hreg Hsel.
  destruct (selects_index m (S k) Hsel) as [Hi Hlt].
  rewrite (press_ArrowUp onSelect m opts Hreg). cbv zeta. rewrite Hi.
  destruct (Z.eqb_spec (Z.of_nat (S k)) (-1)); [lia |].
  replace (Z.of_nat (S k) - 1) with (Z.of_nat k) by lia.
  destruct (nth_error opts k) as [t |] eqn:Ht;
    [| apply nth_error_None in Ht; lia].
  exists t. split; [exact Ht |].
  unfold with_selected. simpl selected.
  now apply get_nth.
Qed.

Lemma up_from_first (m : Machine) :
  options_current m = Some opts ->
  selects m opts 0 ->
  selected (press onSelect "ArrowUp" m) = JS.Undefined.
Proof.
  intros Hreg Hsel.
  destruct (selects_index m 0 Hsel) as [Hi _].
  rewrite (press_ArrowUp onSelect m opts Hreg). cbv zeta. rewrite Hi.
  reflexivity.
Qed.

Lemma up_iter (m : Machine) (n : nat) :
  options_current m = Some opts ->
  selected m = JS.Null ->
  let m' := Nat.iter n (press onSelect "ArrowUp") m in
  let r := (n mod S (List.length opts))%nat in
  options_current m' = Some opts
  /\ (r = 0%nat ->
      selected m' = if Nat.eqb n 0 then JS.Null else JS.Undefined)
  /\ (r <> 0%nat -> selects m' opts (List.length opts - r)).
Proof.
  intros Hreg Hsel. cbv zeta.
  assert (Hlen : (0 < List.length opts)%nat)
    by (destruct opts; [contradiction | simpl; lia]).
  induction n as [| n (IHreg & IHzero & IHpos)].
  - rewrite Nat.Div0.mod_0_l. simpl Nat.iter.
    split; [exact Hreg |]. split; [intros _; exact Hsel | intros H; now elim H].
  - rewrite Nat.iter_succ.
    split; [now apply press_ArrowUp_registry |].
    set (L := List.length opts) in *.
    set (r := (n mod S L)%nat) in *.
    assert (Hr : (r < S L)%nat) by (apply Nat.mod_upper_bound; lia).
    assert (Hnext : (S n mod S L = (r + 1) mod S L)%nat).
    { replace (S n) with (n + 1)%nat by lia.
      symmetry. apply Nat.Div0.add_mod_idemp_l. }
    rewrite Hnext.
    destruct (Nat.eq_dec r 0) as [Hz | Hnz].
    + (* nothing selected: wrap to the last element *)
      rewrite Hz. rewrite Nat.mod_small by lia. split; [lia |].
      intros _. apply up_from_falsy; [exact IHreg |].
      rewrite (IHzero Hz). now destruct (Nat.eqb n 0).
    + specialize (IHpos Hnz).
      destruct (Nat.eq_dec r L) as [Hlast | Hmid].
      * (* the first element is selected: the lookup at -1 *)
        replace (r + 1)%nat with (S L) by lia.
        rewrite Nat.Div0.mod_same. split; [| intros H; now elim H].
        intros _. simpl Nat.eqb. cbv iota.
        apply up_from_first; [exact IHreg |].
        now replace (L - r)%nat with 0%nat in IHpos by lia.
      * rewrite Nat.mod_small by lia. split; [lia |].
        intros _. apply up_from_index; [exact IHreg |].
        now replace (S (L - (r + 1))) with (L - r)%nat by lia.
Qed.

End Climbing.

(** X4.  Over a non-empty registry of pairwise distinct, non-empty values and
    starting from no selection, ArrowUp walks the registry backwards with
    period length + 1: with r = n mod (length + 1), the n-th press selects
    the element at index length - r when r is not 0, and when r is 0 it
    leaves the selection [undefined] (the lookup before index 0), from
    which the next press starts again at the last element. *)
Theorem arrow_up_period (opts : list string) (onSelect : option callback)
    (m : Machine) (n : nat) :
  opts <> [] -> NoDup opts -> ~ In "" opts ->
  options_current m = Some opts ->
  selected m = JS.Null ->
  (1 <= n)%nat ->
  let m' := Nat.iter n (press onSelect "ArrowUp") m in
  let r := (n mod S (List.length opts))%nat in
  (r = 0%nat -> selected m' = JS.Undefined)
  /\ (r <> 0%nat -> selects m' opts (List.length opts - r)).
Proof.
  intros Hne Hnd Htruthy Hreg Hsel Hn. cbv zeta.
  destruct (up_iter opts Hne Hnd Htruthy onSelect m n Hreg Hsel)
    as (_ & Hzero & Hpos).
  split; [| exact Hpos].
  intros Hr. rewrite (Hzero Hr).
  destruct n; [lia | reflexivity].
Qed.

Lemma arrow_up_period_witness :
  let opts := ["a"; "b"; "c"] in
  selected (Nat.iter 4 (press None "ArrowUp") (registry opts)) = JS.Undefined
  /\ selects (Nat.iter 5 (press None "ArrowUp") (registry opts)) opts 2.
Proof.
  cbv zeta.
  assert (Hne : ["a"; "b"; "c"] <> []) by discriminate.
  assert (Hnd : NoDup ["a"; "b"; "c"]).
  { repeat constructor; simpl; intuition discriminate. }
  assert (Htruthy : ~ In "" ["a"; "b"; "c"]).
  { simpl; intuition discriminate. }
  split.
  - refine (proj1 (arrow_up_period ["a"; "b"; "c"] None
                     (registry ["a"; "b"; "c"]) 4 Hne Hnd Htruthy
                     eq_refl eq_refl _) eq_refl).
    lia.
  - refine (proj2 (arrow_up_period ["a"; "b"; "c"] None
                     (registry ["a"; "b"; "c"]) 5 Hne Hnd Htruthy
                     eq_refl eq_refl _) _).
    + lia.
    + discriminate.
Defined.

(** ** Keys in sequence *)

(** X5.  Over a non-empty registry of pairwise distinct, non-empty values,
    ArrowUp undoes ArrowDown from every element but the last; from the
    last element ArrowDown wraps to the first and ArrowUp then leaves the
    selection [undefined]. *)
Theorem up_undoes_down_before_last (opts : list string)
    (onSelect : option callback) (m : Machine) (k : nat) :
  opts <> [] -> NoDup opts -> ~ In "" opts ->
  options_current m = Some opts ->
  selects m opts k ->
  let m' := press onSelect "ArrowUp" (press onSelect "ArrowDown" m) in
  ((S k < List.length opts)%nat -> selects m' opts k)
  /\ (S k = List.length opts -> selected m' = JS.Undefined).
Proof.
  intros Hne Hnd Htruthy Hreg Hsel. cbv zeta.
  pose proof (down_from_index opts Hne Hnd Htruthy onSelect m k Hreg Hsel)
    as Hdown.
  pose proof (press_ArrowDown_registry onSelect m opts Hreg) as Hreg'.
  split.
  - intros Hlt. rewrite Nat.mod_small in Hdown by lia.
    now apply (up_from_index opts Hnd Htruthy onSelect).
  - intros Hlast. rewrite Hlast, Nat.Div0.mod_same in Hdown.
    now apply (up_from_first opts Hnd Htruthy onSelect).
Qed.

Lemma up_undoes_down_before_last_witness :
  let opts := ["a"; "b"; "c"] in
  let m := with_selected (JS.Str "b") (registry opts) in
  selects (press None "ArrowUp" (press None "ArrowDown" m)) opts 1.
Proof.
  cbv zeta.
  refine (proj1 (up_undoes_down_before_last ["a"; "b"; "c"] None
                   (with_selected (JS.Str "b") (registry ["a"; "b"; "c"])) 1
                   _ _ _ eq_refl _) _).
  - discriminate.
  - repeat constructor; simpl; intuition discriminate.
  - simpl; intuition discriminate.
  - exists "b". split; reflexivity.
  - simpl. lia.
Defined.

Lemma down_iter_calls (onSelect : option callback) (arr : list string)
    (m : Machine) (n : nat) :
  options_current m = Some arr ->
  let m' := Nat.iter n (press onSelect "ArrowDown") m in
  options_current m' = Some arr
  /\ calls m' = calls m
  /\ showPopover m' = showPopover m.
Proof.
  intros Hreg. cbv zeta. induction n as [| n (IHreg & IHcalls & IHpop)].
  - simpl. auto.
  - rewrite Nat.iter_succ.
    rewrite (press_ArrowDown onSelect _ arr IHreg). cbv zeta.
    unfold with_selected, prevented. simpl. auto.
Qed.

(** X6.  From no selection over a non-empty registry of pairwise distinct,
    non-empty values, n presses of ArrowDown (n >= 1) followed by Enter
    invoke the callback exactly once, with the registry element at index
    (n-1) mod length, and leave the widget with no selection and the
    popover hidden. *)
Theorem down_then_enter_delivers (opts : list string) (cb : callback)
    (m : Machine) (n : nat) :
  opts <> [] -> NoDup opts -> ~ In "" opts ->
  options_current m = Some opts ->
  selected m = JS.Null ->
  (1 <= n)%nat ->
  let m' := press (Some cb) "Enter"
              (Nat.iter n (press (Some cb) "ArrowDown") m) in
  exists s,
    nth_error opts ((n - 1) mod List.length opts) = Some s
    /\ calls m' = (calls m ++ [(cb, JS.Str s)])%list
    /\ selected m' = JS.Null
    /\ showPopover m' = false.
Proof.
  intros Hne Hnd Htruthy Hreg Hsel Hn. cbv zeta.
  destruct n as [| n]; [lia |].
  replace (S n - 1)%nat with n by lia.
  destruct (down_iter opts Hne Hnd Htruthy (Some cb) m n Hreg Hsel)
    as (_ & s & Hs & Hselected).
  destruct (down_iter_calls (Some cb) opts m (S n) Hreg) as (_ & Hcalls & _).
  exists s. split; [exact Hs |].
  remember (Nat.iter (S n) (press (Some cb) "ArrowDown") m) as m1 eqn:E.
  clear E. unfold press. rewrite onKeyDown_Enter.
  unfold bind at 1. unfold preventDefault at 1.
  rewrite onItemSelect_run. simpl.
  rewrite Hselected, Hcalls. repeat split; reflexivity.
Qed.

Lemma down_then_enter_delivers_witness :
  let opts := ["a"; "b"; "c"] in
  exists s,
    nth_error opts 1 = Some s
    /\ calls (press (Some (Callback 0)) "Enter"
                (Nat.iter 5 (press (Some (Callback 0)) "ArrowDown")
                   (registry opts)))
       = [(Callback 0, JS.Str s)].
Proof.
  cbv zeta.
  assert (Hne : ["a"; "b"; "c"] <> []) by discriminate.
  assert (Hnd : NoDup ["a"; "b"; "c"]).
  { repeat constructor; simpl; intuition discriminate. }
  assert (Htruthy : ~ In "" ["a"; "b"; "c"]).
  { simpl; intuition discriminate. }
  assert (Hn : (1 <= 5)%nat) by lia.
  destruct (down_then_enter_delivers ["a"; "b"; "c"] (Callback 0)
              (registry ["a"; "b"; "c"]) 5 Hne Hnd Htruthy eq_refl eq_refl Hn)
    as (s & Hs & Hcalls & _).
  exists s. split; [exact Hs | exact Hcalls].
Defined.

(** ** What the handlers leave alone *)

Ltac arrow_cases env m :=
  unfold ComboBox.onArrowDown, ComboBox.onArrowUp, ComboBox.getSelectedIndex,
    bind, read_options, member, ret, throw;
  destruct (JS.not (env_selected env)); simpl;
  destruct (options_current m); simpl; split_ifs.

Lemma blurCheck_cases (page : DOM.Page) (m : Machine) :
  ComboBox.blurCheck page m = (Ok tt, m)
  \/ ComboBox.blurCheck page m
     = (Ok tt, with_selected JS.Null (with_showPopover false m)).
Proof.
  unfold ComboBox.blurCheck.
  destruct (_ || _); [now left |].
  destruct (DOM.listRef_current page) as [l |]; [| now right].
  destruct (DOM.contains l _); [now left | now right].
Qed.

Lemma run_tasks_frame (page : DOM.Page) (ts : list task) (m : Machine) :
  let m' := snd (ComboBox.run_tasks page ts m) in
  expanded m' = expanded m
  /\ options_current m' = options_current m
  /\ calls m' = calls m
  /\ frames m' = frames m.
Proof.
  cbv zeta. revert m. induction ts as [| [] rest IH]; intros m; simpl; [auto |].
  unfold bind.
  destruct (blurCheck_cases page m) as [-> | ->].
  - apply IH.
  - destruct (IH (with_selected JS.Null (with_showPopover false m)))
      as (He & Hr & Hc & Hf).
    rewrite He, Hr, Hc, Hf. repeat split; reflexivity.
Qed.

(** X7.  The callback is reached from Enter and from a click only: every
    function of the widget leaves the trace of invocations as it was,
    except [onItemSelect], [handleSelect] and [onKeyDown] on "Enter", which
    add at most one invocation, of the callback their closure holds. *)
Theorem only_enter_and_click_invoke (env : Env) (key value : string)
    (page : DOM.Page) (h : M unit) (m : Machine) :
  In h (handlers env key value page) ->
  calls (snd (h m)) = calls m
  \/ (exists cb v,
        env_onSelect env = Some cb
        /\ calls (snd (h m)) = (calls m ++ [(cb, v)])%list
        /\ (h = ComboBox.onItemSelect env
            \/ h = ComboBox.handleSelect env value
            \/ (h = ComboBox.onKeyDown env key /\ key = "Enter"))).
Proof.
  unfold handlers. simpl.
  intros [<- | [<- | [<- | [<- | [<- | [<- | [<- | [<- | [<- | [<- | [<- |
          [<- | [<- | [<- | []]]]]]]]]]]]]]].
  - left. arrow_cases env m.
  - left. arrow_cases env m.
  - rewrite onItemSelect_run. destruct (env_onSelect env) as [cb |] eqn:E.
    + right. exists cb, (env_selected env). simpl. auto.
    + now left.
  - now left.
  - destruct (String.eqb_spec key "ArrowUp") as [-> | Hup].
    { left.
      change (ComboBox.onKeyDown env "ArrowUp" m)
        with (ComboBox.onArrowUp env (prevented m)).
      change (calls m) with (calls (prevented m)).
      generalize (prevented m). intros m0. arrow_cases env m0. }
    destruct (String.eqb_spec key "ArrowDown") as [-> | Hdown].
    { left.
      change (ComboBox.onKeyDown env "ArrowDown" m)
        with (ComboBox.onArrowDown env (prevented m)).
      change (calls m) with (calls (prevented m)).
      generalize (prevented m). intros m0. arrow_cases env m0. }
    destruct (String.eqb_spec key "Escape") as [-> | Hesc]; [now left |].
    destruct (String.eqb_spec key "Enter") as [-> | Hent].
    + change (ComboBox.onKeyDown env "Enter" m)
        with (ComboBox.onItemSelect env (prevented m)).
      rewrite onItemSelect_run.
      destruct (env_onSelect env) as [cb |] eqn:E.
      * right. exists cb, (env_selected env).
        split; [reflexivity |]. split; [reflexivity |].
        right. right. split; reflexivity.
      * now left.
    + left. unfold ComboBox.onKeyDown.
      apply String.eqb_neq in Hup, Hdown, Hesc, Hent.
      now rewrite Hup, Hdown, Hesc, Hent.
  - left. unfold ComboBox.onInputChange, bind. simpl.
    now destruct (negb (env_showPopover env)).
  - now left.
  - left. now destruct (blurCheck_cases page m) as [-> | ->].
  - left. unfold ComboBox.animationFrame.
    now rewrite (proj1 (proj2 (proj2 (run_tasks_frame page (frames m) _)))).
  - now left.
  - rewrite handleSelect_run. destruct (env_onSelect env) as [cb |] eqn:E.
    + right. exists cb, (JS.Str value). simpl. auto.
    + now left.
  - now left.
  - now left.
  - left. unfold ComboBoxOption.effect, bind, read_options.
    now destruct (options_current m).
Qed.

Lemma only_enter_and_click_invoke_witness :
  let env := mkEnv (JS.Str "a") true (Some (Callback 3)) in
  let m := with_selected (JS.Str "a") (registry ["a"; "b"]) in
  calls (snd (ComboBox.onArrowDown env m)) = calls m
  \/ (exists cb v,
        env_onSelect env = Some cb
        /\ calls (snd (ComboBox.onArrowDown env m)) = (calls m ++ [(cb, v)])%list
        /\ (ComboBox.onArrowDown env = ComboBox.onItemSelect env
            \/ ComboBox.onArrowDown env = ComboBox.handleSelect env "b"
            \/ (ComboBox.onArrowDown env = ComboBox.onKeyDown env "Tab"
                /\ "Tab" = "Enter"))).
Proof.
  cbv zeta.
  apply (only_enter_and_click_invoke
           (mkEnv (JS.Str "a") true (Some (Callback 3))) "Tab" "b"
           (DOM.mkPage None None None)).
  simpl. tauto.
Defined.

Lemma handler_step (env : Env) (key value : string) (page : DOM.Page)
    (h : M unit) (m : Machine) (arr : list string) :
  In h (handlers env key value page) ->
  options_current m = Some arr ->
  fst (h m) = Ok tt
  /\ expanded (snd (h m)) = expanded m
  /\ (options_current (snd (h m)) = Some arr
      \/ options_current (snd (h m)) = Some []
      \/ options_current (snd (h m)) = Some (arr ++ [value])%list).
Proof.
  intros Hin Harr.
  split.
  { destruct (handlers_outcome env key value page h m Hin) as [H | [_ H]];
      [exact H | congruence]. }
  assert (Hgoal : forall m' : Machine,
             options_current m' = Some arr -> expanded m' = expanded m ->
             expanded m' = expanded m
             /\ (options_current m' = Some arr
                 \/ options_current m' = Some []
                 \/ options_current m' = Some (arr ++ [value])%list))
    by auto.
  unfold handlers in Hin. simpl in Hin.
  destruct Hin as [<- | [<- | [<- | [<- | [<- | [<- | [<- | [<- | [<- | [<- |
                  [<- | [<- | [<- | [<- | []]]]]]]]]]]]]]].
  - rewrite (onArrowDown_run env m arr Harr). now apply Hgoal.
  - rewrite (onArrowUp_run env m arr Harr). now apply Hgoal.
  - rewrite onItemSelect_run. apply Hgoal; simpl;
      now destruct (env_onSelect env).
  - now apply Hgoal.
  - destruct (String.eqb_spec key "ArrowUp") as [-> | Hup].
    { change (ComboBox.onKeyDown env "ArrowUp" m)
        with (ComboBox.onArrowUp env (prevented m)).
      rewrite (onArrowUp_run env (prevented m) arr Harr). now apply Hgoal. }
    destruct (String.eqb_spec key "ArrowDown") as [-> | Hdown].
    { change (ComboBox.onKeyDown env "ArrowDown" m)
        with (ComboBox.onArrowDown env (prevented m)).
      rewrite (onArrowDown_run env (prevented m) arr Harr). now apply Hgoal. }
    destruct (String.eqb_spec key "Escape") as [-> | Hesc];
      [now apply Hgoal |].
    destruct (String.eqb_spec key "Enter") as [-> | Hent].
    + change (ComboBox.onKeyDown env "Enter" m)
        with (ComboBox.onItemSelect env (prevented m)).
      rewrite onItemSelect_run. apply Hgoal; simpl;
        now destruct (env_onSelect env).
    + unfold ComboBox.onKeyDown.
      apply String.eqb_neq in Hup, Hdown, Hesc, Hent.
      rewrite Hup, Hdown, Hesc, Hent. now apply Hgoal.
  - unfold ComboBox.onInputChange, bind. simpl.
    destruct (negb (env_showPopover env)); now apply Hgoal.
  - now apply Hgoal.
  - destruct (blurCheck_cases page m) as [-> | ->]; now apply Hgoal.
  - unfold ComboBox.animationFrame.
    destruct (run_tasks_frame page (frames m)
                (mkMachine (selected m) (showPopover m) (expanded m)
                   (options_current m) (calls m) (defaultPrevented m) []))
      as (He & Hr & _ & _).
    apply Hgoal; [now rewrite Hr | now rewrite He].
  - now apply Hgoal.
  - rewrite handleSelect_run. apply Hgoal; simpl;
      now destruct (env_onSelect env).
  - split; [reflexivity |]. right. now left.
  - split; [reflexivity |]. right. now left.
  - unfold ComboBoxOption.effect, bind, read_options. rewrite Harr. simpl.
    split; [reflexivity |]. right. now right.
Qed.

(** X8.  From a state whose registry ref holds an array, as at mount, every
    sequence of the widget's handlers, frame callbacks and effects returns
    normally at each step, leaves the ref holding an array, and never
    changes the [expanded] flag (no function of the widget calls
    [setExpanded]). *)
Theorem registry_never_null (hs : list (M unit)) (m : Machine) :
  Forall is_handler hs ->
  options_current m <> None ->
  options_current (run_all hs m) <> None
  /\ expanded (run_all hs m) = expanded m
  /\ Forall (fun r => r = Ok tt) (outcomes hs m).
Proof.
  intros Hhs. revert m.
  induction Hhs as [| h rest (env & key & value & page & Hin) _ IH];
    intros m Hreg.
  - simpl. auto.
  - destruct (options_current m) as [arr |] eqn:Harr; [| contradiction].
    destruct (handler_step env key value page h m arr Hin Harr)
      as (Hok & Hexp & Hnext).
    assert (Hreg' : options_current (snd (h m)) <> None)
      by (destruct Hnext as [-> | [-> | ->]]; discriminate).
    destruct (IH (snd (h m)) Hreg') as (IHreg & IHexp & IHout).
    simpl. repeat split.
    + exact IHreg.
    + now rewrite IHexp.
    + constructor; assumption.
Qed.

Lemma registry_never_null_witness :
  let env := mkEnv JS.Null false None in
  let hs := [ComboBoxList.layoutEffect; ComboBoxOption.effect "a";
             ComboBox.onKeyDown env "ArrowUp"; ComboBox.onEscape] in
  options_current (run_all hs initial) <> None
  /\ outcomes hs initial = [Ok tt; Ok tt; Ok tt; Ok tt].
Proof.
  cbv zeta. split; [| reflexivity].
  refine (proj1 (registry_never_null _ initial _ _)).
  - repeat constructor;
      exists (mkEnv JS.Null false None), "ArrowUp", "a", (DOM.mkPage None None None);
      simpl; tauto.
  - discriminate.
Defined.

(** ** Typing *)

(** X9.  Whatever closures earlier renders left behind, a change of the input
    handled from the latest render leaves the popover visible and the
    selection cleared, invokes nothing and leaves the registry alone. *)
Theorem input_change_shows_popover (onSelect : option callback)
    (listId : string) (prev : option ComboBox.Callbacks) (m : Machine) :
  let ctx := ComboBox.render onSelect listId prev m in
  let m' := snd (ComboBoxInput.handleChange ctx m) in
  fst (ComboBoxInput.handleChange ctx m) = Ok tt
  /\ showPopover m' = true
  /\ selected m' = JS.Null
  /\ calls m' = calls m
  /\ options_current m' = options_current m.
Proof.
  cbv zeta. unfold ComboBoxInput.handleChange, ComboBox.render.
  simpl ComboBox.ctx_callbacks.
  destruct (hooks_fresh prev (mkEnv (selected m) (showPopover m) onSelect))
    as [_ Hpop].
  simpl env_showPopover in Hpop at 2.
  unfold ComboBox.onInputChange, bind. rewrite Hpop. simpl.
  destruct (showPopover m) eqn:E; simpl; repeat split; auto.
Qed.

(** ** Frames *)

Lemma blurCheck_twice (page : DOM.Page) (m : Machine) :
  ComboBox.blurCheck page (snd (ComboBox.blurCheck page m))
  = ComboBox.blurCheck page m.
Proof.
  unfold ComboBox.blurCheck.
  destruct (_ || _); [reflexivity |].
  destruct (DOM.listRef_current page) as [l |]; [| reflexivity].
  destruct (DOM.contains l _); reflexivity.
Qed.

Lemma run_tasks_as_one (page : DOM.Page) (ts : list task) (m : Machine) :
  ComboBox.run_tasks page (BlurCheck :: ts) m = ComboBox.blurCheck page m.
Proof.
  revert m. induction ts as [| [] rest IH]; intros m.
  - simpl. unfold bind.
    destruct (blurCheck_cases page m) as [-> | ->]; reflexivity.
  - change (ComboBox.run_tasks page (BlurCheck :: BlurCheck :: rest) m)
      with (bind (ComboBox.blurCheck page)
                 (fun _ => ComboBox.run_tasks page (BlurCheck :: rest)) m).
    unfold bind at 1.
    pose proof (blurCheck_twice page m) as Htwice.
    destruct (blurCheck_cases page m) as [E | E]; rewrite E in *; simpl in Htwice;
      rewrite IH; exact Htwice.
Qed.

(** X10.  Both the input and the list hand [handleBlur] to their blur events, so
    a frame may find several checks queued: however many there are, the
    frame does what a single check does and leaves the queue empty; with
    nothing queued it only returns. *)
Theorem frame_runs_checks_as_one (page : DOM.Page) (m : Machine) :
  (frames m <> [] ->
   ComboBox.animationFrame page m = ComboBox.blurCheck page (drained m))
  /\ (frames m = [] -> ComboBox.animationFrame page m = (Ok tt, drained m))
  /\ frames (snd (ComboBox.animationFrame page m)) = [].
Proof.
  unfold ComboBox.animationFrame. fold (drained m).
  split; [| split].
  - intros Hq. destruct (frames m) as [| [] rest]; [contradiction |].
    apply run_tasks_as_one.
  - intros ->. reflexivity.
  - now rewrite (proj2 (proj2 (proj2 (run_tasks_frame page (frames m) (drained m))))).
Qed.

Lemma frame_runs_checks_as_one_witness :
  let page := DOM.mkPage (Some (DOM.Node 9 [])) (Some (DOM.Node 1 []))
                         (Some (DOM.Node 2 [])) in
  let m := snd (ComboBox.handleBlur
                  (snd (ComboBox.handleBlur
                          (with_showPopover true (registry ["a"])))))  in
  frames m = [BlurCheck; BlurCheck]
  /\ ComboBox.animationFrame page m = ComboBox.blurCheck page (drained m).
Proof.
  cbv zeta. split; [reflexivity |].
  apply (proj1 (frame_runs_checks_as_one _ _)). discriminate.
Defined.

(** X11.  With nothing focused when the frame fires
    ([document.activeElement] is [null]), the loose comparison makes a
    [null] input ref or a [null] list ref count as the focused element and
    the check leaves the state as it was; only when both refs hold a node
    does it end with the popover hidden and the selection [null]. *)
Theorem blur_with_nothing_focused (page : DOM.Page) (m : Machine) :
  DOM.activeElement page = None ->
  (DOM.inputRef_current page = None \/ DOM.listRef_current page = None ->
   ComboBox.blurCheck page m = (Ok tt, m))
  /\ (DOM.inputRef_current page <> None ->
      DOM.listRef_current page <> None ->
      let m' := snd (ComboBox.blurCheck page m) in
      fst (ComboBox.blurCheck page m) = Ok tt
      /\ showPopover m' = false
      /\ selected m' = JS.Null
      /\ calls m' = calls m
      /\ options_current m' = options_current m).
Proof.
  intros Hnone. unfold ComboBox.blurCheck. rewrite Hnone.
  destruct (DOM.inputRef_current page) as [i |],
           (DOM.listRef_current page) as [l |]; simpl; split;
    try reflexivity; try (intros [H | H]; discriminate H);
    try (intros H1 H2; contradiction).
  intros _ _. repeat split; reflexivity.
Qed.

Lemma blur_with_nothing_focused_witness :
  let m := with_selected (JS.Str "a") (with_showPopover true (registry ["a"])) in
  let unmounted := ComboBox.blurCheck
                     (DOM.mkPage None None (Some (DOM.Node 2 []))) m in
  let mounted := ComboBox.blurCheck
                   (DOM.mkPage None (Some (DOM.Node 1 [])) (Some (DOM.Node 2 []))) m in
  (showPopover (snd unmounted) = true /\ selected (snd unmounted) = JS.Str "a")
  /\ (showPopover (snd mounted) = false /\ selected (snd mounted) = JS.Null).
Proof.
  cbv zeta. split.
  - rewrite (proj1 (blur_with_nothing_focused
                      (DOM.mkPage None None (Some (DOM.Node 2 [])))
                      (with_selected (JS.Str "a")
                         (with_showPopover true (registry ["a"]))) eq_refl)
                   (or_introl eq_refl)).
    split; reflexivity.
  - destruct (proj2 (blur_with_nothing_focused
                       (DOM.mkPage None (Some (DOM.Node 1 [])) (Some (DOM.Node 2 [])))
                       (with_selected (JS.Str "a")
                          (with_showPopover true (registry ["a"]))) eq_refl))
      as (_ & Hpop & Hsel & _); try discriminate.
    split; [exact Hpop | exact Hsel].
Defined.

(** ** What is rendered *)

Lemma append_cancel (l a b : string) : (l ++ a = l ++ b)%string -> a = b.
Proof.
  induction l as [| c l IH]; simpl; intros H; [exact H |].
  injection H as H. now apply IH.
Qed.

Lemma append_same (l a : string) : (l ++ a = l)%string -> a = "".
Proof.
  induction l as [| c l IH]; simpl; intros H; [exact H |].
  injection H as H. now apply IH.
Qed.

Lemma append_empty (l : string) : (l ++ "")%string = l.
Proof.
  induction l as [| c l IH]; simpl; [reflexivity | now rewrite IH].
Qed.

(** X12.  Under one controller the option for value [v] renders as selected
    exactly when the selection is [v].  The input's [aria-activedescendant]
    is absent exactly when the selection is falsy, and otherwise it is the
    id of the option rendering as selected; so an option whose value is the
    empty string can render as selected while the input names no active
    descendant. *)
Theorem aria_follows_selection (ctx : ComboBox.ContextType)
    (shown : JS.value) (v : string)
    (input : ComboBoxInput.element) (option : ComboBoxOption.element) :
  ComboBoxInput.render (Some ctx) shown = Ok input ->
  ComboBoxOption.render (Some ctx) v = Ok option ->
  (ComboBoxOption.aria_selected option = "true"
   <-> ComboBox.ctx_selected ctx = JS.Str v)
  /\ (ComboBoxOption.aria_selected option = "true"
      \/ ComboBoxOption.aria_selected option = "false")
  /\ (ComboBoxInput.aria_activedescendant input = JS.Undefined
      <-> JS.not (ComboBox.ctx_selected ctx) = true)
  /\ (ComboBox.ctx_selected ctx = JS.Str v -> v <> "" ->
      ComboBoxInput.aria_activedescendant input
      = JS.Str (ComboBoxOption.id option))
  /\ (ComboBox.ctx_selected ctx = JS.Str v -> v = "" ->
      ComboBoxOption.aria_selected option = "true"
      /\ ComboBoxInput.aria_activedescendant input = JS.Undefined).
Proof.
  intros [= <-] [= <-]. simpl.
  destruct (ComboBox.ctx_selected ctx) as [| | s] eqn:Hsel; simpl.
  - repeat split; auto; try discriminate.
  - repeat split; auto; try discriminate.
  - destruct (String.eqb_spec s v) as [-> | Hne];
      destruct (String.eqb_spec v "") as [-> | Hv];
      try destruct (String.eqb_spec s "") as [-> | Hs];
      repeat split; auto; try discriminate; try congruence.
    all: try (intros [= ->]; contradiction).
    all: try (intros; exfalso; congruence).
Qed.

Lemma aria_follows_selection_witness :
  let ctx := ComboBox.render None "list1" None
               (with_selected (JS.Str "b") (registry ["a"; "b"])) in
  exists input option,
    ComboBoxInput.render (Some ctx) (JS.Str "b") = Ok input
    /\ ComboBoxOption.render (Some ctx) "b" = Ok option
    /\ ComboBoxOption.aria_selected option = "true"
    /\ ComboBoxInput.aria_activedescendant input = JS.Str "list1b".
Proof.
  cbv zeta. eexists. eexists.
  split; [reflexivity |]. split; [reflexivity |].
  pose proof (aria_follows_selection
                (ComboBox.render None "list1" None
                   (with_selected (JS.Str "b") (registry ["a"; "b"])))
                (JS.Str "b") "b" _ _ eq_refl eq_refl)
    as (Hsel & _ & _ & Hactive & _).
  split; [now apply Hsel |].
  apply Hactive; [reflexivity | discriminate].
Defined.

(** X13.  Ids under one controller: two options render the same id exactly when
    their values are equal; the input and the list container both render
    the list id itself; and an option's id is that same id exactly when its
    value is the empty string. *)
Theorem ids_under_one_controller (ctx : ComboBox.ContextType)
    (shown : JS.value) (v w : string)
    (input : ComboBoxInput.element) (list : ComboBoxList.element)
    (a b : ComboBoxOption.element) :
  ComboBoxInput.render (Some ctx) shown = Ok input ->
  ComboBoxList.render (Some ctx) = Ok list ->
  ComboBoxOption.render (Some ctx) v = Ok a ->
  ComboBoxOption.render (Some ctx) w = Ok b ->
  (ComboBoxOption.id a = ComboBoxOption.id b <-> v = w)
  /\ ComboBoxInput.id input = ComboBoxList.id list
  /\ ComboBoxInput.aria_controls input = ComboBoxList.id list
  /\ (ComboBoxOption.id a = ComboBoxList.id list <-> v = "").
Proof.
  intros [= <-] [= <-] [= <-] [= <-]. simpl. unfold ComboBox.makeHash.
  repeat split; auto.
  - apply append_cancel.
  - now intros ->.
  - apply append_same.
  - intros ->. apply append_empty.
Qed.

Lemma ids_under_one_controller_witness :
  let ctx := ComboBox.render None "list7" None initial in
  exists a b,
    ComboBoxOption.render (Some ctx) "x" = Ok a
    /\ ComboBoxOption.render (Some ctx) "y" = Ok b
    /\ ComboBoxOption.id a <> ComboBoxOption.id b.
Proof.
  cbv zeta. eexists. eexists.
  split; [reflexivity |]. split; [reflexivity |].
  pose proof (ids_under_one_controller
                (ComboBox.render None "list7" None initial) JS.Null "x" "y"
                _ _ _ _ eq_refl eq_refl eq_refl eq_refl) as (Hids & _).
  intros Heq. apply Hids in Heq. discriminate Heq.
Defined.

(** X14.  After Escape, Enter or a click, the render of the new state shows the
    widget closed: the list is [aria-hidden] with opacity 0 and no pointer
    events, the input names no active descendant, and no option renders as
    selected. *)
Theorem closing_renders_closed (env : Env) (value : string) (h : M unit)
    (m : Machine) (onSelect : option callback) (listId : string)
    (prev : option ComboBox.Callbacks) :
  In h [ComboBox.onEscape; ComboBox.onItemSelect env;
        ComboBox.handleSelect env value] ->
  let ctx := ComboBox.render onSelect listId prev (snd (h m)) in
  (exists list,
     ComboBoxList.render (Some ctx) = Ok list
     /\ ComboBoxList.aria_hidden list = true
     /\ ComboBoxList.opacity list = 0
     /\ ComboBoxList.pointerEvents list = "none")
  /\ (forall shown, exists input,
        ComboBoxInput.render (Some ctx) shown = Ok input
        /\ ComboBoxInput.aria_activedescendant input = JS.Undefined)
  /\ (forall v, exists option,
        ComboBoxOption.render (Some ctx) v = Ok option
        /\ ComboBoxOption.aria_selected option = "false"
        /\ ComboBoxOption.background option = "none").
Proof.
  intros Hin. cbv zeta.
  assert (Hclosed : selected (snd (h m)) = JS.Null
                    /\ showPopover (snd (h m)) = false).
  { simpl in Hin. destruct Hin as [<- | [<- | [<- | []]]].
    - split; reflexivity.
    - rewrite onItemSelect_run. destruct (env_onSelect env); split; reflexivity.
    - rewrite handleSelect_run. split; reflexivity. }
  destruct Hclosed as [Hsel Hpop].
  unfold ComboBox.render, ComboBoxList.render, ComboBoxInput.render,
    ComboBoxOption.render. simpl. rewrite Hsel, Hpop. simpl.
  split; [| split].
  - eexists. repeat split; reflexivity.
  - intros shown. eexists. split; reflexivity.
  - intros v. eexists. repeat split; reflexivity.
Qed.

Lemma closing_renders_closed_witness :
  let m := with_selected (JS.Str "a") (with_showPopover true (registry ["a"])) in
  let ctx := ComboBox.render None "list1" None (snd (ComboBox.onEscape m)) in
  exists list,
    ComboBoxList.render (Some ctx) = Ok list
    /\ ComboBoxList.aria_hidden list = true.
Proof.
  cbv zeta.
  destruct (closing_renders_closed (mkEnv JS.Null false None) "a"
              ComboBox.onEscape
              (with_selected (JS.Str "a") (with_showPopover true (registry ["a"])))
              None "list1" None (or_introl eq_refl))
    as ((list & Hrender & Hhidden & _) & _).
  exists list. split; [exact Hrender | exact Hhidden].
Defined.

(** ** Closures across renders *)

Lemma renders_snoc (envs : list Env) (e : Env) :
  renders (envs ++ [e]) = Some (ComboBox.hooks (renders envs) e).
Proof.
  unfold renders. now rewrite fold_left_app.
Qed.

Lemma renders_mount (first : Env) (rest : list Env) :
  exists cbs,
    renders (first :: rest) = Some cbs /\ ComboBox.by_nothing cbs = first.
Proof.
  induction rest as [| e rest IH] using rev_ind.
  - eexists. split; reflexivity.
  - destruct IH as (cbs & Hr & Hm).
    change (first :: rest ++ [e]) with ((first :: rest) ++ [e])%list.
    rewrite renders_snoc, Hr. eexists. split; [reflexivity |].
    exact Hm.
Qed.

(** X15.  After any number of renders, the handlers with an empty dependency
    list still hold the closure of the first render, so a click invokes
    the [onSelect] passed at mount (or nothing, if none was passed then),
    whatever later renders pass; the handlers that depend on [selected]
    read the selection of the latest render, and [onInputChange] its
    [showPopover]. *)
Theorem click_keeps_mount_callback (first : Env) (between : list Env)
    (latest : Env) (v : string) (m : Machine) :
  exists cbs,
    renders (first :: between ++ [latest]) = Some cbs
    /\ ComboBox.by_nothing cbs = first
    /\ env_selected (ComboBox.by_selected cbs) = env_selected latest
    /\ env_showPopover (ComboBox.by_showPopover cbs) = env_showPopover latest
    /\ calls (snd (ComboBox.handleSelect (ComboBox.by_nothing cbs) v m))
       = match env_onSelect first with
         | Some cb => (calls m ++ [(cb, JS.Str v)])%list
         | None => calls m
         end.
Proof.
  destruct (renders_mount first (between ++ [latest])) as (cbs & Hr & Hm).
  exists cbs. split; [exact Hr |]. split; [exact Hm |].
  change (first :: between ++ [latest])
    with ((first :: between) ++ [latest])%list in Hr.
  rewrite renders_snoc in Hr. injection Hr as <-.
  destruct (hooks_fresh (renders (first :: between)) latest) as [Hsel Hpop].
  split; [exact Hsel |]. split; [exact Hpop |].
  rewrite handleSelect_run, Hm.
  now destruct (env_onSelect first).
Qed.

Example click_after_prop_change :
  exists cbs,
    renders [mkEnv JS.Null false (Some (Callback 1));
             mkEnv JS.Null true (Some (Callback 2))] = Some cbs
    /\ calls (snd (ComboBox.handleSelect (ComboBox.by_nothing cbs) "a" initial))
       = [(Callback 1, JS.Str "a")].
Proof. eexists. split; reflexivity. Qed.

(** ** Commit, every phase *)

(** X16.  What a render pass does to a registry [arr]: when the list
    container takes no part, the values of the options rendered in the pass
    are appended to [arr] in the order their effects run (the options
    inside an option before that option, otherwise in rendered order); in
    every other phase the registry is rebuilt from nothing and ends as
    exactly those values in that order. *)
Theorem commit_appends_or_rebuilds (p : Commit.Pass) (m : Machine)
    (arr : list string) :
  options_current m = Some arr ->
  fst (Commit.commit p m) = Ok tt
  /\ options_current (snd (Commit.commit p m))
     = Some ((match Commit.phase p with
              | Commit.Idle => arr
              | _ => []
              end) ++ Commit.rendered p)%list.
Proof.
  intros Harr. split.
  - unfold Commit.commit, bind.
    assert (Hlay : fst (Commit.layout (Commit.phase p) m) = Ok tt)
      by (destruct (Commit.phase p); reflexivity).
    assert (Hreg : options_current (snd (Commit.layout (Commit.phase p) m)) <> None)
      by (destruct (Commit.phase p); simpl; congruence).
    destruct (Commit.layout (Commit.phase p) m) as [[[] | e] m'];
      simpl in Hlay, Hreg; [| discriminate].
    clear Hlay. generalize dependent m'.
    induction (Commit.rendered p) as [| v rest IH]; intros m' Hreg;
      [reflexivity |].
    simpl. unfold bind.
    destruct (options_current m') as [arr' |] eqn:E; [| contradiction].
    destruct (effect_appends v m' arr' E) as [Hok Hnext].
    destruct (ComboBoxOption.effect v m') as [[[] | e] m''];
      simpl in Hok, Hnext; [| discriminate].
    apply IH. congruence.
  - destruct (Commit.phase p) eqn:Hph.
    + rewrite commit_rebuilds by congruence. reflexivity.
    + rewrite commit_rebuilds by congruence. reflexivity.
    + rewrite commit_rebuilds by congruence. reflexivity.
    + unfold Commit.commit. rewrite Hph. simpl Commit.layout.
      unfold bind at 1. unfold ret at 1.
      now apply passive_appends.
Qed.

Lemma commit_appends_or_rebuilds_witness :
  let m := snd (Commit.commit
                  (Commit.of_controller true
                     [Commit.Row "a" true [Commit.leaf "b"]])
                  initial) in
  let alone := Commit.mkPass Commit.Idle
                 [Commit.Row "a" true [Commit.Row "b" false []]] in
  options_current m = Some ["b"; "a"]
  /\ options_current (snd (Commit.commit alone m)) = Some ["b"; "a"; "a"].
Proof.
  cbv zeta. split; [reflexivity |].
  exact (proj2 (commit_appends_or_rebuilds
                  (Commit.mkPass Commit.Idle
                     [Commit.Row "a" true [Commit.Row "b" false []]])
                  (snd (Commit.commit
                          (Commit.of_controller true
                             [Commit.Row "a" true [Commit.leaf "b"]])
                          initial))
                  ["b"; "a"] eq_refl)).
Defined.

(** ** Enter and click across renders *)

Lemma value_eqb_refl (v : JS.value) : JS.value_eqb v v = true.
Proof. destruct v; simpl; auto using String.eqb_refl. Qed.

Lemma value_eqb_neq (a b : JS.value) : a <> b -> JS.value_eqb a b = false.
Proof.
  intros H. destruct (JS.value_eqb a b) eqn:E; [| reflexivity].
  exfalso. apply H. now apply value_eqb_eq.
Qed.

(** The closure kept for the handlers that depend on [selected] is the
    one of the render in which the selection last changed. *)
Lemma by_selected_kept (earlier : list Env) (kept : Env) (later : list Env) :
  selection_last_changed earlier kept later ->
  exists cbs,
    renders (earlier ++ kept :: later) = Some cbs
    /\ ComboBox.by_selected cbs = kept.
Proof.
  intros [Hbefore Hlater].
  induction later as [| e later IH] using rev_ind.
  - rewrite renders_snoc. eexists. split; [reflexivity |].
    destruct Hbefore as [-> | (before & prev & -> & Hdiff)]; [reflexivity |].
    rewrite renders_snoc.
    destruct (hooks_fresh (renders before) prev) as [Hsel _].
    remember (ComboBox.hooks (renders before) prev) as c eqn:Ec. clear Ec.
    unfold ComboBox.hooks, ComboBox.useCallback.
    cbn [ComboBox.by_selected option_map].
    now rewrite Hsel, (value_eqb_neq _ _ Hdiff).
  - apply Forall_app in Hlater. destruct Hlater as [Hlater He].
    inversion He as [| ? ? Hsame _]; subst.
    destruct (IH Hlater) as (cbs & Hr & Hk).
    replace (earlier ++ kept :: later ++ [e])%list
      with ((earlier ++ kept :: later) ++ [e])%list
      by (now rewrite <- app_assoc).
    rewrite renders_snoc, Hr. eexists. split; [reflexivity |].
    unfold ComboBox.hooks, ComboBox.useCallback.
    cbn [ComboBox.by_selected option_map].
    now rewrite Hk, Hsame, value_eqb_refl.
Qed.

(** Enter from the closure kept after a sequence of renders runs
    [onItemSelect] from the render in which the selection last changed,
    once the default is suppressed. *)
Lemma enter_after_renders (earlier : list Env) (kept : Env) (later : list Env)
    (m : Machine) :
  selection_last_changed earlier kept later ->
  exists cbs,
    renders (earlier ++ kept :: later) = Some cbs
    /\ ComboBox.by_selected cbs = kept
    /\ ComboBox.onKeyDown (ComboBox.by_selected cbs) "Enter" m
       = ComboBox.onItemSelect kept (prevented m).
Proof.
  intros Hkept. destruct (by_selected_kept earlier kept later Hkept)
    as (cbs & Hr & Hk).
  exists cbs. split; [exact Hr |]. split; [exact Hk |].
  now rewrite Hk.
Qed.

(** C3, as amended.  In every state with a non-empty current selection [s],
    Enter ([onKeyDown] reaching [onItemSelect], both memoised on the
    selection) invokes exactly once, with [s], the callback passed at the
    render in which the selection last changed, and nothing if none was
    passed then; afterwards the selection is [null] and the popover is
    hidden. *)
Theorem enter_invokes_kept_callback (earlier : list Env) (kept : Env)
    (later : list Env) (m : Machine) (s : string) :
  selection_last_changed earlier kept later ->
  env_selected kept = JS.Str s ->
  exists cbs,
    renders (earlier ++ kept :: later) = Some cbs
    /\ ComboBox.by_selected cbs = kept
    /\ (let r := ComboBox.onKeyDown (ComboBox.by_selected cbs) "Enter" m in
        fst r = Ok tt
        /\ (forall cb, env_onSelect kept = Some cb ->
            calls (snd r) = (calls m ++ [(cb, JS.Str s)])%list)
        /\ (env_onSelect kept = None -> calls (snd r) = calls m)
        /\ selected (snd r) = JS.Null
        /\ showPopover (snd r) = false
        /\ options_current (snd r) = options_current m).
Proof.
  intros Hkept Hsel.
  destruct (enter_after_renders earlier kept later m Hkept)
    as (cbs & Hr & Hk & Henter).
  exists cbs. split; [exact Hr |]. split; [exact Hk |].
  cbv zeta. rewrite Henter, onItemSelect_run, Hsel.
  destruct (env_onSelect kept) as [cb0 |]; simpl; repeat split; auto;
    try discriminate.
  now intros cb [= <-].
Qed.

Lemma enter_invokes_kept_callback_witness :
  let mount := mkEnv JS.Null true (Some (Callback 0)) in
  let down := mkEnv (JS.Str "a") true (Some (Callback 1)) in
  let again := mkEnv (JS.Str "a") true (Some (Callback 2)) in
  let m := with_selected (JS.Str "a") (with_showPopover true (registry ["a"; "b"])) in
  option_map ComboBox.by_selected (renders [mount; down; again]) = Some down
  /\ exists cbs,
       renders [mount; down; again] = Some cbs
       /\ calls (snd (ComboBox.onKeyDown (ComboBox.by_selected cbs) "Enter" m))
          = [(Callback 1, JS.Str "a")]
       /\ selected (snd (ComboBox.onKeyDown (ComboBox.by_selected cbs) "Enter" m))
          = JS.Null.
Proof.
  cbv zeta. split; [reflexivity |].
  assert (Hkept : selection_last_changed
                    [mkEnv JS.Null true (Some (Callback 0))]
                    (mkEnv (JS.Str "a") true (Some (Callback 1)))
                    [mkEnv (JS.Str "a") true (Some (Callback 2))]).
  { split.
    - right. exists [], (mkEnv JS.Null true (Some (Callback 0))).
      split; [reflexivity | discriminate].
    - repeat constructor. }
  destruct (enter_invokes_kept_callback _ _ _
              (with_selected (JS.Str "a")
                 (with_showPopover true (registry ["a"; "b"])))
              "a" Hkept eq_refl)
    as (cbs & Hr & _ & _ & Hcall & _ & Hsel & _).
  exists cbs. split; [exact Hr |]. split; [| exact Hsel].
  exact (Hcall (Callback 1) eq_refl).
Defined.

(** C3 as worded fails once the parent passes another [onSelect] without
    the selection changing: with "a" selected and [Callback 1] passed at
    that render, a later render passing [Callback 2] leaves the memoised
    handler as it was, and Enter invokes [Callback 1]. *)
Lemma enter_invokes_stale_callback :
  let kept := mkEnv (JS.Str "a") true (Some (Callback 1)) in
  let latest := mkEnv (JS.Str "a") true (Some (Callback 2)) in
  (exists cbs,
     renders [kept; latest] = Some cbs
     /\ calls (snd (ComboBox.onKeyDown (ComboBox.by_selected cbs) "Enter"
                      (with_selected (JS.Str "a") (registry ["a"]))))
        = [(Callback 1, JS.Str "a")])
  /\ ~ enter_invokes_latest (JS.Str "a").
Proof.
  cbv zeta. split.
  - eexists. split; reflexivity.
  - intros H.
    specialize (H [mkEnv (JS.Str "a") true (Some (Callback 1))]
                  (mkEnv (JS.Str "a") true (Some (Callback 2)))
                  _ (with_selected (JS.Str "a") (registry ["a"]))
                  (Callback 2) eq_refl eq_refl eq_refl).
    vm_compute in H. discriminate H.
Qed.

(** C10, as amended.  With no selection, Enter still invokes the callback
    its memoised handler holds, the one passed at the render in which the
    selection last changed (the mount, if it never did), with [null] as
    argument, and still hides the popover: no check of the selection
    stands before the call.  Nothing is invoked only if no callback was
    passed at that render. *)
Theorem enter_unguarded_kept_callback (earlier : list Env) (kept : Env)
    (later : list Env) (m : Machine) :
  selection_last_changed earlier kept later ->
  env_selected kept = JS.Null ->
  exists cbs,
    renders (earlier ++ kept :: later) = Some cbs
    /\ ComboBox.by_selected cbs = kept
    /\ (let r := ComboBox.onKeyDown (ComboBox.by_selected cbs) "Enter" m in
        fst r = Ok tt
        /\ (forall cb, env_onSelect kept = Some cb ->
            calls (snd r) = (calls m ++ [(cb, JS.Null)])%list)
        /\ (env_onSelect kept = None -> calls (snd r) = calls m)
        /\ showPopover (snd r) = false
        /\ selected (snd r) = JS.Null).
Proof.
  intros Hkept Hsel.
  destruct (enter_after_renders earlier kept later m Hkept)
    as (cbs & Hr & Hk & Henter).
  exists cbs. split; [exact Hr |]. split; [exact Hk |].
  cbv zeta. rewrite Henter, onItemSelect_run, Hsel.
  destruct (env_onSelect kept) as [cb0 |]; simpl; repeat split; auto;
    try discriminate.
  now intros cb [= <-].
Qed.

Lemma enter_unguarded_kept_callback_witness :
  let mount := mkEnv JS.Null false (Some (Callback 1)) in
  let shown := mkEnv JS.Null true (Some (Callback 1)) in
  let m := with_showPopover true (registry ["a"; "b"]) in
  option_map ComboBox.by_selected (renders [mount; shown]) = Some mount
  /\ exists cbs,
       renders [mount; shown] = Some cbs
       /\ calls (snd (ComboBox.onKeyDown (ComboBox.by_selected cbs) "Enter" m))
          = [(Callback 1, JS.Null)]
       /\ showPopover (snd (ComboBox.onKeyDown (ComboBox.by_selected cbs) "Enter" m))
          = false.
Proof.
  cbv zeta. split; [reflexivity |].
  assert (Hkept : selection_last_changed []
                    (mkEnv JS.Null false (Some (Callback 1)))
                    [mkEnv JS.Null true (Some (Callback 1))]).
  { split; [now left | repeat constructor]. }
  destruct (enter_unguarded_kept_callback _ _ _
              (with_showPopover true (registry ["a"; "b"])) Hkept eq_refl)
    as (cbs & Hr & _ & _ & Hcall & _ & Hpop & _).
  exists cbs. split; [exact Hr |]. split; [| exact Hpop].
  exact (Hcall (Callback 1) eq_refl).
Defined.

(** C10 as worded fails in the same way: with nothing selected since
    mount, where [Callback 1] was passed, a later render passing
    [Callback 2] does not reach the handler, and Enter invokes
    [Callback 1] with [null]. *)
Lemma enter_unguarded_stale_callback :
  let mount := mkEnv JS.Null false (Some (Callback 1)) in
  let latest := mkEnv JS.Null true (Some (Callback 2)) in
  (exists cbs,
     renders [mount; latest] = Some cbs
     /\ calls (snd (ComboBox.onKeyDown (ComboBox.by_selected cbs) "Enter"
                      (with_showPopover true (registry ["a"]))))
        = [(Callback 1, JS.Null)])
  /\ ~ enter_invokes_latest JS.Null.
Proof.
  cbv zeta. split.
  - eexists. split; reflexivity.
  - intros H.
    specialize (H [mkEnv JS.Null false (Some (Callback 1))]
                  (mkEnv JS.Null true (Some (Callback 2)))
                  _ (with_showPopover true (registry ["a"]))
                  (Callback 2) eq_refl eq_refl eq_refl).
    vm_compute in H. discriminate H.
Qed.

(** C6, as amended.  For every option value [v] and whatever the selection
    or the popover state, a click on the option runs [handleSelect v] from
    the closure of the first render ([handleSelect] is memoised with no
    dependency): it invokes, with [v], the callback passed at mount, and
    nothing if none was passed then, and leaves the popover hidden and the
    selection [null]. *)
Theorem click_invokes_mount_callback (first : Env) (rest : list Env)
    (ctx : ComboBox.ContextType) (v : string) (m : Machine) :
  renders (first :: rest) = Some (ComboBox.ctx_callbacks ctx) ->
  let r := ComboBoxOption.onClick ctx v m in
  r = ComboBox.handleSelect first v m
  /\ fst r = Ok tt
  /\ (forall cb, env_onSelect first = Some cb ->
      calls (snd r) = (calls m ++ [(cb, JS.Str v)])%list)
  /\ (env_onSelect first = None -> calls (snd r) = calls m)
  /\ selected (snd r) = JS.Null
  /\ showPopover (snd r) = false
  /\ options_current (snd r) = options_current m.
Proof.
  intros Hr.
  destruct (renders_mount first rest) as (cbs & Hr' & Hm).
  rewrite Hr in Hr'. injection Hr' as Hcbs.
  cbv zeta. unfold ComboBoxOption.onClick. rewrite Hcbs, Hm.
  rewrite handleSelect_run.
  destruct (env_onSelect first) as [cb0 |]; simpl; repeat split; auto;
    try discriminate.
  now intros cb [= <-].
Qed.

Lemma click_invokes_mount_callback_witness :
  let mount := mkEnv JS.Null false (Some (Callback 1)) in
  let later := mkEnv (JS.Str "a") true (Some (Callback 2)) in
  let m := with_selected (JS.Str "a") (with_showPopover true (registry ["a"; "b"; "c"])) in
  let ctx := ComboBox.mkContext (JS.Str "a") true "list1" false
               (ComboBox.hooks (Some (ComboBox.hooks None mount)) later) in
  ComboBox.by_nothing (ComboBox.ctx_callbacks ctx) = mount
  /\ calls (snd (ComboBoxOption.onClick ctx "c" m)) = [(Callback 1, JS.Str "c")]
  /\ selected (snd (ComboBoxOption.onClick ctx "c" m)) = JS.Null
  /\ showPopover (snd (ComboBoxOption.onClick ctx "c" m)) = false.
Proof.
  cbv zeta. split; [reflexivity |].
  destruct (click_invokes_mount_callback
              (mkEnv JS.Null false (Some (Callback 1)))
              [mkEnv (JS.Str "a") true (Some (Callback 2))]
              (ComboBox.mkContext (JS.Str "a") true "list1" false
                 (ComboBox.hooks
                    (Some (ComboBox.hooks None
                             (mkEnv JS.Null false (Some (Callback 1)))))
                    (mkEnv (JS.Str "a") true (Some (Callback 2)))))
              "c"
              (with_selected (JS.Str "a")
                 (with_showPopover true (registry ["a"; "b"; "c"])))
              eq_refl)
    as (_ & _ & Hcall & _ & Hsel & Hpop & _).
  split; [exact (Hcall (Callback 1) eq_refl) |]. split; [exact Hsel | exact Hpop].
Defined.

(** C6 as worded fails for a callback that arrives after mount: with no
    [onSelect] passed at the first render and [Callback 2] passed at the
    next, a click invokes nothing. *)
Lemma click_misses_later_callback :
  let mount := mkEnv JS.Null false None in
  let latest := mkEnv JS.Null false (Some (Callback 2)) in
  let ctx := ComboBox.mkContext JS.Null false "list1" false
               (ComboBox.hooks (Some (ComboBox.hooks None mount)) latest) in
  renders [mount; latest] = Some (ComboBox.ctx_callbacks ctx)
  /\ calls (snd (ComboBoxOption.onClick ctx "a" (registry ["a"]))) = []
  /\ ~ click_invokes_latest.
Proof.
  cbv zeta. split; [reflexivity |]. split; [reflexivity |].
  intros H.
  specialize (H [mkEnv JS.Null false None]
                (mkEnv JS.Null false (Some (Callback 2)))
                (ComboBox.mkContext JS.Null false "list1" false
                   (ComboBox.hooks
                      (Some (ComboBox.hooks None (mkEnv JS.Null false None)))
                      (mkEnv JS.Null false (Some (Callback 2)))))
                "a" (registry ["a"]) (Callback 2) eq_refl eq_refl).
  vm_compute in H. discriminate H.
Qed.
